(** * Engine.IO protocol codec (lib/index.js): packets, payloads and their framing

    A shallow embedding of the parser of engine.io-protocol.  The file is
    made of:

    - [JS]: the few primitives of the JavaScript runtime the parser relies
      on (strings as sequences of UTF-16 code units, [String(n)],
      [Number(s)], [parseInt], [substr], base64 and UTF-8 conversions of
      [Buffer]);
    - [Parser]: the functions of lib/index.js, one definition per
      function, in the order of the source;
    - [JSFacts], [PacketFacts], [TextFacts], [BinaryFacts]: lemmas about
      the runtime, the single-packet codec and the two payload decoders;
    - the properties of the codec.

    Conventions.  The source is written in continuation-passing style; every
    encoder calls its callback exactly once, so the model returns the value
    handed to the callback.  The payload decoders call the callback once per
    packet; the model returns the sequence of these calls.  An exception is
    a value of [Result].  A packet object is mutable in the source, so every
    encoder also returns the packet as it is left after the call.

    The runtime is the one the source was written for (Node 0.10: [Buffer]
    objects have no [.buffer] property, ECMAScript 5.1 number syntax). *)

From Stdlib Require Import List NArith ZArith Arith Lia Bool String Ascii.
From Stdlib.Strings Require Import Byte.
Import ListNotations.

Set Implicit Arguments.

(* ================================================================== *)
(** * The runtime *)
(* ================================================================== *)

Module JS.

(** A JavaScript string: a sequence of UTF-16 code units. *)
Definition jsstring := list N.

(** A string literal (one code unit per character, Latin-1). *)
Definition str (s : string) : jsstring :=
  map N_of_ascii (list_ascii_of_string s).

Definition str_eqb (a b : jsstring) : bool :=
  if list_eq_dec N.eq_dec a b then true else false.

(** A [Buffer]: a sequence of bytes. *)
Definition bytes := list byte.

(** Storing a number into a [Buffer] cell keeps its low eight bits. *)
Definition to_byte (n : N) : byte :=
  match Byte.of_N (n mod 256) with
  | Some b => b
  | None => x00
  end.

(** Exceptions the modelled code can raise. *)
Inductive JSError := TypeError | RangeError.

Inductive Result (A : Type) : Type :=
| Ok (a : A)
| Throw (e : JSError).
Arguments Ok {A} a.
Arguments Throw {A} e.

Definition bind {A B} (r : Result A) (k : A -> Result B) : Result B :=
  match r with
  | Ok a => k a
  | Throw e => Throw e
  end.

(** ** Strings *)

(** [s.charAt(i)]: the empty string when [i] is out of range. *)
Definition charAt (s : jsstring) (i : nat) : jsstring :=
  match nth_error s i with
  | Some c => [c]
  | None => []
  end.

(** [s.substring(start)] and [s.substr(start)]. *)
Definition substring (s : jsstring) (start : nat) : jsstring := skipn start s.

(** ** Decimal digits *)

Definition colon : N := 58.
Definition isDigit (c : N) : bool := (48 <=? c)%N && (c <=? 57)%N.
Definition digitVal (c : N) : N := c - 48.

(** The value of a sequence of decimal digits. *)
Definition digitsVal (ds : jsstring) : N :=
  fold_left (fun acc c => (acc * 10 + digitVal c)%N) ds 0%N.

Fixpoint digits_fuel (fuel n : nat) (acc : jsstring) : jsstring :=
  match fuel with
  | O => acc
  | S f =>
      let acc' := (48 + N.of_nat (n mod 10))%N :: acc in
      if n <? 10 then acc' else digits_fuel f (n / 10) acc'
  end.

(** [String(n)] for a non-negative integer [n] (a length): its decimal
    digits, without leading zeros. *)
Definition String_of_nat (n : nat) : jsstring := digits_fuel (S n) n [].

(** ** [Number(s)]: ECMAScript 5.1, 9.3.1 (ToNumber applied to a string)

    [Number] gives the mathematical value of the literal,
    [(-1)^neg * m * 10^e]; the number the runtime holds is the double
    nearest to it, [toDouble] below. *)

Inductive JSNumber :=
| NaN
| PosInf
| NegInf
| Dec (neg : bool) (m : N) (e : Z).

Definition isNaN (v : JSNumber) : bool :=
  match v with NaN => true | _ => false end.

(** StrWhiteSpaceChar: WhiteSpace and LineTerminator. *)
Definition isWhiteSpace (c : N) : bool :=
  existsb (N.eqb c)
    [9; 10; 11; 12; 13; 32; 160; 5760; 6158; 8232; 8233; 8239; 8287;
     12288; 65279]%N
  || ((8192 <=? c)%N && (c <=? 8202)%N).

Fixpoint dropWhile (f : N -> bool) (s : jsstring) : jsstring :=
  match s with
  | [] => []
  | c :: r => if f c then dropWhile f r else s
  end.

Definition trim (s : jsstring) : jsstring :=
  rev (dropWhile isWhiteSpace (rev (dropWhile isWhiteSpace s))).

(** The longest prefix of decimal digits, and the rest. *)
Fixpoint spanDigits (s : jsstring) : jsstring * jsstring :=
  match s with
  | [] => ([], [])
  | c :: r =>
      if isDigit c then let (d, r') := spanDigits r in (c :: d, r')
      else ([], s)
  end.

Definition hexDigit (c : N) : option N :=
  if isDigit c then Some (c - 48)%N
  else if (97 <=? c)%N && (c <=? 102)%N then Some (c - 87)%N
  else if (65 <=? c)%N && (c <=? 70)%N then Some (c - 55)%N
  else None.

Fixpoint hexVal (acc : N) (s : jsstring) : option N :=
  match s with
  | [] => Some acc
  | c :: r =>
      match hexDigit c with
      | Some d => hexVal (acc * 16 + d) r
      | None => None
      end
  end.

(** StrDecimalLiteral: sign, then [Infinity] or digits with an optional
    fraction and exponent. *)
Definition decimalLiteral (t : jsstring) : JSNumber :=
  let '(neg, u) :=
    match t with
    | 43 :: u => (false, u)
    | 45 :: u => (true, u)
    | _ => (false, t)
    end%N in
  if str_eqb u (str "Infinity") then (if neg then NegInf else PosInf)
  else
    let '(ip, r1) := spanDigits u in
    let '(fp, r2) :=
      match r1 with
      | 46 :: r => spanDigits r
      | _ => ([], r1)
      end%N in
    match ip ++ fp with
    | [] => NaN
    | ds =>
        let m := digitsVal ds in
        let frac := Z.of_nat (List.length fp) in
        match r2 with
        | [] => Dec neg m (- frac)
        | c :: r3 =>
            if (c =? 101)%N || (c =? 69)%N then
              let '(eneg, r4) :=
                match r3 with
                | 43 :: r => (false, r)
                | 45 :: r => (true, r)
                | _ => (false, r3)
                end%N in
              match spanDigits r4 with
              | ((_ :: _) as ed, []) =>
                  let ev := Z.of_N (digitsVal ed) in
                  Dec neg m ((if eneg then - ev else ev) - frac)
              | _ => NaN
              end
            else NaN
        end
    end.

Definition Number (s : jsstring) : JSNumber :=
  match trim s with
  | [] => Dec false 0 0
  | 48 :: x :: ds =>
      if (x =? 120) || (x =? 88) then
        match ds with
        | [] => NaN
        | _ => match hexVal 0 ds with
               | Some v => Dec false v 0
               | None => NaN
               end
        end
      else decimalLiteral (trim s)
  | t => decimalLiteral t
  end%N.

(** ** Number values (ECMAScript 5.1, 8.5)

    The value of a literal is rounded to the nearest double, ties to even:
    [1.00000000000000000001] is 1, [1e-400] is 0, [1.5] is itself.  A
    double is kept as a fraction [num / den], [den] a power of two.  An
    integer value is kept as it is: it is its own double below 2^53, and
    the parser only compares these numbers with lengths of strings and
    counts code units with them, all below 2^53. *)

Inductive Double :=
| DNaN
| DInf (neg : bool)
| DRat (neg : bool) (num den : N).

(** [num / den] rounded to the nearest integer, ties to even. *)
Definition roundHalfEven (num den : N) : N :=
  let q := (num / den)%N in
  let r := (num mod den)%N in
  if (2 * r <? den)%N then q
  else if (den <? 2 * r)%N then (q + 1)%N
  else if N.even q then q else (q + 1)%N.

(** The integer part of the binary logarithm of [p / q], for positive [p]
    and [q]. *)
Definition floorLog2 (p q : N) : Z :=
  let g := (Z.of_N (N.log2 p) - Z.of_N (N.log2 q))%Z in
  let reached :=
    if (0 <=? g)%Z then (q * 2 ^ Z.to_N g <=? p)%N
    else (q <=? p * 2 ^ Z.to_N (- g))%N in
  if reached then g else (g - 1)%Z.

(** The double nearest to [p / q], for positive [p] and [q]: a mantissa of
    53 bits and an exponent of at least -1074; infinite from 2^1024 on. *)
Definition nearestDouble (neg : bool) (p q : N) : Double :=
  let E := Z.max (floorLog2 p q - 52) (- 1074) in
  if (0 <=? E)%Z then
    let v := (roundHalfEven p (q * 2 ^ Z.to_N E) * 2 ^ Z.to_N E)%N in
    if (2 ^ 1024 <=? v)%N then DInf neg else DRat neg v 1
  else
    DRat neg (roundHalfEven (p * 2 ^ Z.to_N (- E)) q) (2 ^ Z.to_N (- E)).

Definition toDouble (v : JSNumber) : Double :=
  match v with
  | NaN => DNaN
  | PosInf => DInf false
  | NegInf => DInf true
  | Dec neg m e =>
      if (m =? 0)%N then DRat neg 0 1
      else if (0 <=? e)%Z then DRat neg (m * 10 ^ Z.to_N e) 1
      else
        let d := (10 ^ Z.to_N (- e))%N in
        if (m mod d =? 0)%N then DRat neg (m / d) 1
        else nearestDouble neg m d
  end.

(** The natural number a number value is equal to, if any ([-0 == 0]). *)
Definition to_natural (v : JSNumber) : option N :=
  match toDouble v with
  | DRat neg num den =>
      if (num =? 0)%N then Some 0%N
      else if neg then None
      else if (num mod den =? 0)%N then Some (num / den)%N
      else None
  | _ => None
  end.

(** [s != k] for a string [s] and a non-negative integer [k]: the string is
    converted with ToNumber and the numbers are compared. *)
Definition str_ne_nat (s : jsstring) (k : nat) : bool :=
  match to_natural (Number s) with
  | Some n => negb (n =? N.of_nat k)%N
  | None => true
  end.

(** ToInteger of a number used as a count, cut at [avail]. *)
Definition countOf (v : JSNumber) (avail : nat) : nat :=
  match toDouble v with
  | DNaN => 0
  | DInf neg => if neg then 0 else avail
  | DRat neg num den =>
      if neg then 0
      else N.to_nat (N.min (num / den) (N.of_nat avail))
  end.

(** [s.substr(start, n)]: at most [n] code units from [start]. *)
Definition substr (s : jsstring) (start : nat) (n : JSNumber) : jsstring :=
  let rest := skipn start s in
  firstn (countOf n (List.length rest)) rest.

(** [parseInt(s)] on a string of decimal digits: the value of the longest
    prefix of digits, [None] (NaN) when there is none.  The parser only
    applies [parseInt] to strings made of the decimal forms of bytes, so
    the sign, white space and [0x] prefixes of the full function never
    occur. *)
Definition parseInt (s : jsstring) : option N :=
  match spanDigits s with
  | ([], _) => None
  | (ds, _) => Some (digitsVal ds)
  end.

(** ** [Buffer]: base64

    [buf.toString('base64')]: RFC 4648 with padding. *)

Definition b64alphabet : jsstring :=
  str "ABCDEFGHIJKLMNOPQRSTUVWXYZabcdefghijklmnopqrstuvwxyz0123456789+/".

Definition pad : N := 61.

Definition b64char (i : N) : N := nth (N.to_nat i) b64alphabet pad.

Fixpoint base64_encode (bs : bytes) : jsstring :=
  match bs with
  | [] => []
  | [a] =>
      let x := Byte.to_N a in
      [b64char (x / 4); b64char ((x mod 4) * 16); pad; pad]%N
  | [a; b] =>
      let x := Byte.to_N a in
      let y := Byte.to_N b in
      [b64char (x / 4); b64char ((x mod 4) * 16 + y / 16);
       b64char ((y mod 16) * 4); pad]%N
  | a :: b :: c :: r =>
      let x := Byte.to_N a in
      let y := Byte.to_N b in
      let z := Byte.to_N c in
      [b64char (x / 4); b64char ((x mod 4) * 16 + y / 16);
       b64char ((y mod 16) * 4 + z / 64); b64char (z mod 64)]%N
      ++ base64_encode r
  end.

(** [new Buffer(s, 'base64')]: the decoder of the runtime is lenient; it
    skips every character outside the alphabet (the URL-safe [-] and [_]
    belong to it), stops at the first [=], and decodes the sextets read
    so far. *)

Definition unbase64 (c : N) : option N :=
  if (65 <=? c)%N && (c <=? 90)%N then Some (c - 65)%N
  else if (97 <=? c)%N && (c <=? 122)%N then Some (c - 71)%N
  else if isDigit c then Some (c + 4)%N
  else if (c =? 43)%N || (c =? 45)%N then Some 62%N
  else if (c =? 47)%N || (c =? 95)%N then Some 63%N
  else None.

Fixpoint base64_sextets (s : jsstring) : list N :=
  match s with
  | [] => []
  | c :: r =>
      if (c =? pad)%N then []
      else match unbase64 c with
           | Some v => v :: base64_sextets r
           | None => base64_sextets r
           end
  end.

Fixpoint base64_bytes (l : list N) : bytes :=
  match l with
  | a :: b :: c :: d :: r =>
      to_byte (a * 4 + b / 16) :: to_byte ((b mod 16) * 16 + c / 4)
      :: to_byte ((c mod 4) * 64 + d) :: base64_bytes r
  | [a; b; c] =>
      [to_byte (a * 4 + b / 16); to_byte ((b mod 16) * 16 + c / 4)]
  | [a; b] => [to_byte (a * 4 + b / 16)]
  | _ => []
  end%N.

Definition base64_decode (s : jsstring) : bytes :=
  base64_bytes (base64_sextets s).

(** ** [Buffer]: UTF-8

    [new Buffer(s, 'utf8')]: a surrogate pair is one code point, a lone
    surrogate is written as U+FFFD. *)

Definition isHighSurrogate (c : N) : bool := (0xD800 <=? c)%N && (c <=? 0xDBFF)%N.
Definition isLowSurrogate (c : N) : bool := (0xDC00 <=? c)%N && (c <=? 0xDFFF)%N.

Definition utf8_of_codepoint (cp : N) : bytes :=
  (if cp <? 0x80 then [to_byte cp]
   else if cp <? 0x800 then
     [to_byte (0xC0 + cp / 64); to_byte (0x80 + cp mod 64)]
   else if cp <? 0x10000 then
     [to_byte (0xE0 + cp / 4096); to_byte (0x80 + (cp / 64) mod 64);
      to_byte (0x80 + cp mod 64)]
   else
     [to_byte (0xF0 + cp / 262144); to_byte (0x80 + (cp / 4096) mod 64);
      to_byte (0x80 + (cp / 64) mod 64); to_byte (0x80 + cp mod 64)])%N.

Definition replacement : N := 0xFFFD.

Fixpoint utf8_encode (s : jsstring) : bytes :=
  match s with
  | [] => []
  | c :: r =>
      if isHighSurrogate c then
        match r with
        | d :: r' =>
            if isLowSurrogate d then
              utf8_of_codepoint
                (0x10000 + (c - 0xD800) * 1024 + (d - 0xDC00))%N
              ++ utf8_encode r'
            else utf8_of_codepoint replacement ++ utf8_encode r
        | [] => utf8_of_codepoint replacement
        end
      else if isLowSurrogate c then
        utf8_of_codepoint replacement ++ utf8_encode r
      else utf8_of_codepoint c ++ utf8_encode r
  end.

(** [buf.toString('utf8')]: well-formed sequences give their code point
    (as one or two code units); any other byte gives U+FFFD. *)

Definition byteAt (bs : bytes) (i : nat) : option N :=
  option_map Byte.to_N (nth_error bs i).

Definition contAt (bs : bytes) (i : nat) : option N :=
  match byteAt bs i with
  | Some x => if (0x80 <=? x)%N && (x <=? 0xBF)%N then Some (x - 0x80)%N else None
  | None => None
  end.

Definition utf16_of_codepoint (cp : N) : jsstring :=
  (if cp <? 0x10000 then [cp]
   else [0xD800 + (cp - 0x10000) / 1024; 0xDC00 + (cp - 0x10000) mod 1024])%N.

(** One step of the decoder: the code units produced and the number of
    bytes consumed. *)
Definition utf8_step (bs : bytes) : jsstring * nat :=
  match byteAt bs 0 with
  | None => ([], 1)
  | Some x0 =>
      if (x0 <? 0x80)%N then ([x0], 1)
      else
        let seq :=
          if (0xC2 <=? x0)%N && (x0 <=? 0xDF)%N then
            match contAt bs 1 with
            | Some c1 => Some ([(x0 - 0xC0) * 64 + c1]%N, 2)
            | None => None
            end
          else if (0xE0 <=? x0)%N && (x0 <=? 0xEF)%N then
            match contAt bs 1, contAt bs 2 with
            | Some c1, Some c2 =>
                let cp := ((x0 - 0xE0) * 4096 + c1 * 64 + c2)%N in
                if (0x800 <=? cp)%N
                   && negb (isHighSurrogate cp || isLowSurrogate cp)
                then Some ([cp], 3) else None
            | _, _ => None
            end
          else if (0xF0 <=? x0)%N && (x0 <=? 0xF4)%N then
            match contAt bs 1, contAt bs 2, contAt bs 3 with
            | Some c1, Some c2, Some c3 =>
                let cp :=
                  ((x0 - 0xF0) * 262144 + c1 * 4096 + c2 * 64 + c3)%N in
                if (0x10000 <=? cp)%N && (cp <=? 0x10FFFF)%N
                then Some (utf16_of_codepoint cp, 4) else None
            | _, _, _ => None
            end
          else None in
        match seq with
        | Some r => r
        | None => ([replacement], 1)
        end
  end.

Fixpoint utf8_loop (fuel : nat) (bs : bytes) : jsstring :=
  match fuel, bs with
  | S f, _ :: _ =>
      let '(u, k) := utf8_step bs in u ++ utf8_loop f (skipn k bs)
  | _, _ => []
  end.

Definition utf8_decode (bs : bytes) : jsstring :=
  utf8_loop (List.length bs) bs.

End JS.

(* ================================================================== *)
(** * lib/index.js *)
(* ================================================================== *)

Module Parser.
Import JS.

(** Current protocol version. *)
Definition protocol : nat := 2.

(** ** Packet types *)

(** The names a packet's [type] can hold: the seven keys of [packets] and
    the [error] of the premade error packet. *)
Inductive PacketType :=
| open | close | ping | pong | message | upgrade | noop | error.

Definition PacketType_eqb (a b : PacketType) : bool :=
  match a, b with
  | open, open | close, close | ping, ping | pong, pong
  | message, message | upgrade, upgrade | noop, noop | error, error => true
  | _, _ => false
  end.

(** [packets[name]]: [None] is [undefined]. *)
Definition packets (t : option PacketType) : option N :=
  match t with
  | Some open => Some 0
  | Some close => Some 1
  | Some ping => Some 2
  | Some pong => Some 3
  | Some message => Some 4
  | Some upgrade => Some 5
  | Some noop => Some 6
  | Some error | None => None
  end%N.

(** [packetslist = keys(packets)]. *)
Definition packetslist : list PacketType :=
  [open; close; ping; pong; message; upgrade; noop].

(** [packetslist[i]] for a number [i] read from a buffer ([None] when the
    buffer has no such cell). *)
Definition packetslist_idx (i : option N) : option PacketType :=
  match i with
  | Some n => nth_error packetslist (N.to_nat n)
  | None => None
  end.

(** [packetslist[key]] for a string [key].  Every key the parser uses is
    the result of [charAt], a string of at most one code unit; the
    own properties of the array with such names are ["0"] to ["6"]. *)
Definition packetslist_key (key : jsstring) : option PacketType :=
  match key with
  | [c] => if isDigit c then packetslist_idx (Some (digitVal c)) else None
  | _ => None
  end.

(** ** Packets *)

(** The data of a packet: a string, a [Buffer] or an [ArrayBuffer]. *)
Inductive Data :=
| Text (s : jsstring)
| Buf (b : bytes)
| ArrayBuf (b : bytes).

(** A packet object; [None] is [undefined]. *)
Record Packet := mkPacket { type : option PacketType; data : option Data }.

(** Premade error packet. *)
Definition err : Packet :=
  mkPacket (Some error) (Some (Text (str "parser error"))).

(** What an encoder hands to its callback and what a decoder receives: a
    string or a [Buffer]. *)
Inductive Wire :=
| WStr (s : jsstring)
| WBuf (b : bytes).

(** [String(packets[type])]. *)
Definition String_of_code (c : option N) : jsstring :=
  match c with
  | Some n => String_of_nat (N.to_nat n)
  | None => str "undefined"
  end.

(** [cell = packets[type]] stored into a [Buffer]: [undefined] is stored
    as 0. *)
Definition byte_of_code (c : option N) : byte :=
  match c with
  | Some n => to_byte n
  | None => x00
  end.

(** [supportsBinary] is [None] when the caller left it out and passed the
    callback in its place (it is then set to [null]). *)
Definition truthy (supportsBinary : option bool) : bool :=
  match supportsBinary with
  | Some true => true
  | _ => false
  end.

(** ** encodeBase64Packet

    When the data is an [ArrayBuffer], a [Buffer] of the same length is
    filled from [packet.data[i]], which is [undefined] on an
    [ArrayBuffer] and is stored as 0; the buffer then replaces
    [packet.data].  [toString('base64')] on a string returns the string,
    and fails on [undefined]. *)
Definition encodeBase64Packet (packet : Packet) : Result (jsstring * Packet) :=
  let message := str "b" ++ String_of_code (packets (type packet)) in
  match data packet with
  | Some (ArrayBuf d) =>
      let buf := repeat x00 (List.length d) in
      Ok (message ++ base64_encode buf, mkPacket (type packet) (Some (Buf buf)))
  | Some (Buf b) => Ok (message ++ base64_encode b, packet)
  | Some (Text s) => Ok (message ++ s, packet)
  | None => Throw TypeError
  end.

(** ** encodePacket

    [packet.data.buffer || packet.data] is [packet.data] for the three
    kinds of data. *)
Definition encodePacket (packet : Packet) (supportsBinary : option bool)
  : Result (Wire * Packet) :=
  match data packet with
  | Some (Buf d) =>
      if negb (truthy supportsBinary) then
        bind (encodeBase64Packet packet) (fun '(m, p) => Ok (WStr m, p))
      else
        let typeBuffer := [byte_of_code (packets (type packet))] in
        Ok (WBuf (typeBuffer ++ d), packet)
  | Some (ArrayBuf d) =>
      if negb (truthy supportsBinary) then
        bind (encodeBase64Packet packet) (fun '(m, p) => Ok (WStr m, p))
      else
        Ok (WBuf (byte_of_code (packets (type packet)) :: d), packet)
  | Some (Text s) =>
      (* Sending data as a utf-8 string *)
      let encoded := String_of_code (packets (type packet)) in
      Ok (WStr (encoded ++ s), packet)
  | None =>
      Ok (WStr (String_of_code (packets (type packet))), packet)
  end.

(** ** decodeBase64Packet *)

Inductive BinaryType := arraybuffer | nodebuffer.

Definition decodeBase64Packet (msg : jsstring) (binaryType : BinaryType)
  : Packet :=
  let type := packetslist_key (charAt msg 0) in
  let data := base64_decode (substring msg 1) in
  match binaryType with
  | arraybuffer => mkPacket type (Some (ArrayBuf data))
  | nodebuffer => mkPacket type (Some (Buf data))
  end.

(** ** decodePacket

    The argument is a string, a [Buffer], or [undefined] ([None]).  The
    test [Number(type) != type] compares [Number(type)] with the number
    [type] converts to, itself: it holds exactly when that number is
    NaN. *)
Definition decodePacket (data : option Wire) (binaryType : BinaryType)
  : Result Packet :=
  match data with
  | None =>
      (* [data === undefined] enters the string branch: [data.charAt] *)
      Throw TypeError
  | Some (WStr data) =>
      if str_eqb (charAt data 0) (str "b") then
        Ok (decodeBase64Packet (substring data 1) binaryType)
      else
        let type := charAt data 0 in
        if isNaN (Number type)
           || match packetslist_key type with None => true | _ => false end
        then Ok err
        else if 1 <? List.length data then
          Ok (mkPacket (packetslist_key type) (Some (Text (substring data 1))))
        else Ok (mkPacket (packetslist_key type) None)
  | Some (WBuf data) =>
      (* Binary data *)
      let type := packetslist_idx (byteAt data 0) in
      match binaryType with
      | arraybuffer =>
          match data with
          | [] => Throw RangeError (* new Uint8Array(-1) *)
          | _ :: intArray => Ok (mkPacket type (Some (ArrayBuf intArray)))
          end
      | nodebuffer => Ok (mkPacket type (Some (Buf (skipn 1 data))))
      end
  end.

(** ** encodePayload *)

(** Async array map using after: [doOne] is applied to the elements in
    order and the results are collected in order; the packets are
    returned as the calls leave them. *)
Fixpoint map (A : Type) (ary : list Packet)
    (doOne : Packet -> Result (A * Packet)) : Result (list A * list Packet) :=
  match ary with
  | [] => Ok ([], [])
  | el :: rest =>
      bind (doOne el) (fun '(msg, el') =>
      bind (map rest doOne) (fun '(result, rest') =>
      Ok (msg :: result, el' :: rest')))
  end.

(** [message.length + ':' + message]; a [Buffer] is converted to a string
    by its [toString()]. *)
Definition setLengthHeader (message : Wire) : jsstring :=
  match message with
  | WStr m => String_of_nat (List.length m) ++ [colon] ++ m
  | WBuf b => String_of_nat (List.length b) ++ [colon] ++ utf8_decode b
  end.

(** ** encodePayloadAsBinary

    [encodePacket(p, function ...)]: the callback is the second argument,
    so [supportsBinary] is left out. *)

(** [sizeBuffer[i + 1] = parseInt(encodingLength[i])]. *)
Definition sizeDigits (encodingLength : jsstring) : bytes :=
  List.map (fun c => match parseInt [c] with
                     | Some d => to_byte d
                     | None => x00
                     end) encodingLength.

Definition encodeOneAsBinary (p : Packet) : Result (bytes * Packet) :=
  bind (encodePacket p None) (fun '(packet, p') =>
    match packet with
    | WStr packet =>
        let encodingLength := String_of_nat (List.length packet) in
        let sizeBuffer := [x00] ++ sizeDigits encodingLength ++ [xff] in
        Ok (sizeBuffer ++ utf8_encode packet, p')
    | WBuf packet =>
        let encodingLength := String_of_nat (List.length packet) in
        let sizeBuffer := [x01] ++ sizeDigits encodingLength ++ [xff] in
        Ok (sizeBuffer ++ packet, p')
    end).

Definition encodePayloadAsBinary (packets : list Packet)
  : Result (bytes * list Packet) :=
  match packets with
  | [] => Ok ([], [])
  | _ =>
      bind (map packets encodeOneAsBinary) (fun '(results, packets') =>
      Ok (List.concat results, packets'))
  end.

Definition encodePayload (packets : list Packet) (supportsBinary : option bool)
  : Result (Wire * list Packet) :=
  if truthy supportsBinary then
    bind (encodePayloadAsBinary packets) (fun '(b, ps) => Ok (WBuf b, ps))
  else
    match packets with
    | [] => Ok (WStr (str "0:"), [])
    | _ =>
        let encodeOne packet :=
          bind (encodePacket packet supportsBinary) (fun '(msg, p') =>
          Ok (setLengthHeader msg, p')) in
        bind (map packets encodeOne) (fun '(results, packets') =>
        Ok (WStr (List.concat results), packets'))
    end.

(** ** decodePayload

    What a payload decoder does is the sequence of its calls of the
    callback, ended by an exception if one is raised. *)

Inductive Event :=
| Call (packet : Packet) (index total : nat)
| Raise (e : JSError).

(** What the callback returns: [false], or anything else. *)
Inductive Returned := ReturnedFalse | ReturnedOther.

Definition Callback := Packet -> nat -> nat -> Returned.

(** ['parser error' == x] for the data of a packet: a [Buffer] is compared
    through its [toString()]. *)
Definition isErrData (d : option Data) : bool :=
  match d with
  | Some (Text s) => str_eqb s (str "parser error")
  | Some (Buf b) => str_eqb (utf8_decode b) (str "parser error")
  | Some (ArrayBuf _) | None => false
  end.

(** [err.type == packet.type && err.data == packet.data]. *)
Definition isErr (packet : Packet) : bool :=
  match type packet with
  | Some t => PacketType_eqb error t && isErrData (data packet)
  | None => false
  end.

(** How one pass through the body of a loop ends: by [return], or by
    reaching the end of the body with new values of the loop variables.
    [calls] are the calls of the callback made during the pass. *)
Inductive Flow :=
| Return (calls : list Event)
| Next (calls : list Event) (i : nat) (length : jsstring).

(** The body of the loop of the text decoder, in the state [(i, length)].

    [length != (n = Number(length))] compares [Number(length)] with
    itself: it holds exactly when it is NaN.  After [length != msg.length]
    has failed, [n] is the natural number [msg.length]. *)
Definition loopBody (data : jsstring) (binaryType : BinaryType)
    (callback : Callback) (i : nat) (length : jsstring) : Flow :=
  let l := List.length data in
  let chr := charAt data i in
  if negb (str_eqb (str ":") chr) then Next [] i (length ++ chr)
  else
    let n := Number length in
    if str_eqb [] length || isNaN n then
      (* parser error - ignoring payload *)
      Return [Call err 0 1]
    else
      let msg := substr data (i + 1) n in
      if str_ne_nat length (List.length msg) then
        (* parser error - ignoring payload *)
        Return [Call err 0 1]
      else
        let n := List.length msg in
        match msg with
        | _ :: _ =>
            match decodePacket (Some (WStr msg)) binaryType with
            | Throw e => Return [Raise e]
            | Ok packet =>
                if isErr packet then
                  (* parser error in individual packet - ignoring payload *)
                  Return [Call err 0 1]
                else
                  match callback packet (i + n) l with
                  | ReturnedFalse => Return [Call packet (i + n) l]
                  | ReturnedOther =>
                      (* advance cursor *)
                      Next [Call packet (i + n) l] (i + n) []
                  end
            end
        | [] =>
            (* advance cursor *)
            Next [] (i + n) []
        end.

(** After the loop: [if (length != '') return callback(err, 0, 1)]. *)
Definition afterLoop (length : jsstring) : list Event :=
  if str_eqb length [] then [] else [Call err 0 1].

(** The loop [for (var i = 0, l = data.length; i < l; i++)] from the state
    [(i, length)]; [None] when [fuel] passes do not end it. *)
Fixpoint decodeLoop (fuel : nat) (data : jsstring) (binaryType : BinaryType)
    (callback : Callback) (i : nat) (length : jsstring)
  : option (list Event) :=
  match fuel with
  | O => None
  | S fuel =>
      if List.length data <=? i then Some (afterLoop length)
      else
        match loopBody data binaryType callback i length with
        | Return calls => Some calls
        | Next calls i length =>
            option_map (app calls)
              (decodeLoop fuel data binaryType callback (S i) length)
        end
  end.

(** ** decodePayloadAsBinary *)

(** [new String(bufferTail[i])]: the decimal form of the byte, or
    ["undefined"] past the end of the buffer. *)
Definition String_of_cell (c : option byte) : jsstring :=
  match c with
  | Some b => String_of_nat (N.to_nat (Byte.to_N b))
  | None => str "undefined"
  end.

(** The loop [for (var i = 1; ; i++)]: it ends only on a cell equal to
    255. *)
Fixpoint scanLength (fuel : nat) (bufferTail : bytes) (i : nat)
    (strLen : jsstring) : option jsstring :=
  match fuel with
  | O => None
  | S fuel =>
      match nth_error bufferTail i with
      | Some xff => Some strLen
      | c => scanLength fuel bufferTail (S i) (strLen ++ String_of_cell c)
      end
  end.

(** [buf.slice(start)] and [buf.slice(start, end)] for non-negative
    bounds; NaN ([None]) counts as 0. *)
Definition bound (len : nat) (k : option N) : nat :=
  match k with
  | Some k => N.to_nat (N.min k (N.of_nat len))
  | None => 0
  end.

Definition slice (b : bytes) (start : option N) (end_ : option N) : bytes :=
  let s := bound (List.length b) start in
  let e := bound (List.length b) end_ in
  firstn (e - s) (skipn s b).

Definition sliceFrom (b : bytes) (start : option N) : bytes :=
  skipn (bound (List.length b) start) b.

(** The loop [while (bufferTail.length > 0)]. *)
Fixpoint splitBuffers (fuel : nat) (bufferTail : bytes) (buffers : list Wire)
  : option (list Wire) :=
  match fuel with
  | O => None
  | S fuel =>
      match bufferTail with
      | [] => Some buffers
      | cell0 :: _ =>
          let isString := Byte.eqb cell0 x00 in
          match scanLength fuel bufferTail 1 [] with
          | None => None
          | Some strLen =>
              let bufferTail :=
                sliceFrom bufferTail (Some (N.of_nat (List.length strLen + 1))) in
              let msgLength := parseInt strLen in
              let msgEnd := option_map (fun m => m + 1)%N msgLength in
              let msg := slice bufferTail (Some 1%N) msgEnd in
              let msg := if isString then WStr (utf8_decode msg)
                         else WBuf msg in
              splitBuffers fuel (sliceFrom bufferTail msgEnd)
                (buffers ++ [msg])
          end
      end
  end.

(** [buffers.forEach(function(buffer, i) { callback(decodePacket(buffer,
    binaryType), i, total) })]; what the callback returns is ignored. *)
Fixpoint forEach (buffers : list Wire) (binaryType : BinaryType)
    (i total : nat) : list Event :=
  match buffers with
  | [] => []
  | buffer :: rest =>
      match decodePacket (Some buffer) binaryType with
      | Ok packet => Call packet i total :: forEach rest binaryType (S i) total
      | Throw e => [Raise e]
      end
  end.

(** [None]: the loops are still running after [fuel] iterations.  The
    callback is not a parameter: the calls do not depend on it. *)
Definition decodePayloadAsBinary (fuel : nat) (data : bytes)
    (binaryType : BinaryType) : option (list Event) :=
  match splitBuffers fuel data [] with
  | None => None
  | Some buffers =>
      let total := List.length buffers in
      Some (forEach buffers binaryType 0 total)
  end.

(** The text decoder visits every index at most once, so [data.length + 1]
    iterations are enough; the binary decoder takes its bound from the
    caller. *)
Definition decodePayload (fuel : nat) (data : Wire) (binaryType : BinaryType)
    (callback : Callback) : option (list Event) :=
  match data with
  | WBuf data => decodePayloadAsBinary fuel data binaryType
  | WStr data =>
      if str_eqb data [] then
        (* parser error - ignoring payload *)
        Some [Call err 0 1]
      else
        decodeLoop (S (List.length data)) data binaryType callback 0 []
  end.

End Parser.

Unset Implicit Arguments.

(* ================================================================== *)
(** * Notions used to state the properties *)
(* ================================================================== *)

Module Props.
Import JS Parser.

(** A string of ASCII characters. *)
Definition isAscii (s : jsstring) : bool := forallb (fun c => c <? 128)%N s.

(** The seven types of the protocol: the ones [packets] has a code for. *)
Definition validType (t : option PacketType) : bool :=
  match packets t with
  | Some _ => true
  | None => false
  end.

(** A valid packet: one of the seven types, any data. *)
Definition validPacket (p : Packet) : bool := validType (type p).

(** Equality of data up to the representation of binary contents: a
    [Buffer] and an [ArrayBuffer] holding the same bytes are the same
    data. *)
Definition sameData (a b : option Data) : Prop :=
  match a, b with
  | None, None => True
  | Some (Text s), Some (Text t) => s = t
  | Some (Buf x | ArrayBuf x), Some (Buf y | ArrayBuf y) => x = y
  | _, _ => False
  end.

(** Equality of packets up to that representation. *)
Definition samePacket (p q : Packet) : Prop :=
  type p = type q /\ sameData (data p) (data q).

(** The character a valid type is written as. *)
Definition typeChar (t : option PacketType) : N :=
  match packets t with
  | Some c => 48 + c
  | None => 0
  end.

(** What [encodePacket] hands to its callback. *)
Definition encoded (p : Packet) (supportsBinary : option bool) : Wire :=
  match data p with
  | None => WStr (String_of_code (packets (type p)))
  | Some (Text s) => WStr (String_of_code (packets (type p)) ++ s)
  | Some (Buf b) =>
      if truthy supportsBinary
      then WBuf (byte_of_code (packets (type p)) :: b)
      else WStr (str "b" ++ String_of_code (packets (type p))
                 ++ base64_encode b)
  | Some (ArrayBuf b) =>
      if truthy supportsBinary
      then WBuf (byte_of_code (packets (type p)) :: b)
      else WStr (str "b" ++ String_of_code (packets (type p))
                 ++ base64_encode (repeat x00 (List.length b)))
  end.

(** The packet as [encodePacket] leaves it. *)
Definition after (p : Packet) (supportsBinary : option bool) : Packet :=
  match data p with
  | Some (ArrayBuf b) =>
      if truthy supportsBinary then p
      else mkPacket (type p) (Some (Buf (repeat x00 (List.length b))))
  | _ => p
  end.

(** The packets whose encoding determines them: the data is absent, a
    non-empty string or a [Buffer], or an [ArrayBuffer] sent in binary
    form. *)
Definition codable (p : Packet) (sb : option bool) : bool :=
  validPacket p &&
  match data p with
  | Some (Text []) => false
  | Some (ArrayBuf _) => truthy sb
  | _ => true
  end.

(** Binary data as the decoder returns it for a [binaryType]. *)
Definition binaryData (bt : BinaryType) (b : bytes) : Data :=
  match bt with
  | arraybuffer => ArrayBuf b
  | nodebuffer => Buf b
  end.

(** What decoding the encoding of a codable packet gives. *)
Definition decoded (p : Packet) (bt : BinaryType) : Packet :=
  match data p with
  | Some (Buf b) | Some (ArrayBuf b) => mkPacket (type p) (Some (binaryData bt b))
  | _ => p
  end.

(** A segment [length ++ ":" ++ body] of a text payload, given as the
    pair of [length] and [body], is well formed when its prefix has no
    colon, is not empty and reads as the number of code units of [body],
    and [body], when it is not empty, decodes to a packet other than the
    error packet. *)
Definition goodSeg (bt : BinaryType) (seg : jsstring * jsstring) : Prop :=
  let '(len, body) := seg in
  ~ In colon len /\ len <> [] /\
  to_natural (Number len) = Some (N.of_nat (List.length body)) /\
  (body <> [] ->
   exists p, decodePacket (Some (WStr body)) bt = Ok p /\ isErr p = false).

(** The text of a segment, and of a sequence of segments. *)
Definition segText (seg : jsstring * jsstring) : jsstring :=
  fst seg ++ colon :: snd seg.

Definition segsText (segs : list (jsstring * jsstring)) : jsstring :=
  List.concat (List.map segText segs).

(** The call a well-formed segment that starts at offset [i] of a payload
    of [l] code units gives rise to. *)
Definition segCalls (bt : BinaryType) (l i : nat) (seg : jsstring * jsstring)
  : list Event :=
  match snd seg with
  | [] => []
  | body =>
      match decodePacket (Some (WStr body)) bt with
      | Ok p => [Call p (i + List.length (fst seg) + List.length body) l]
      | Throw e => [Raise e]
      end
  end.

(** The calls a sequence of well-formed segments gives rise to. *)
Fixpoint segsCalls (bt : BinaryType) (l i : nat)
    (segs : list (jsstring * jsstring)) : list Event :=
  match segs with
  | [] => []
  | seg :: rest =>
      segCalls bt l i seg
      ++ segsCalls bt l (i + List.length (segText seg)) rest
  end.

(** The ways the text at the cursor can fail to start a well-formed
    segment: a prefix that is empty or that [Number] does not read as a
    non-negative integer (NaN, a negative number, a fraction, an
    infinity); a declared length larger than what is left; a body that
    decodes to the error packet; characters without a colon at the end of
    the input. *)
Inductive Malformed (bt : BinaryType) : jsstring -> Prop :=
| bad_prefix (len rest : jsstring) :
    ~ In colon len -> len = [] \/ to_natural (Number len) = None ->
    Malformed bt (len ++ colon :: rest)
| bad_short (len rest : jsstring) (n : N) :
    ~ In colon len -> len <> [] -> to_natural (Number len) = Some n ->
    (N.of_nat (List.length rest) < n)%N ->
    Malformed bt (len ++ colon :: rest)
| bad_body (len body rest : jsstring) (p : Packet) :
    ~ In colon len -> len <> [] ->
    to_natural (Number len) = Some (N.of_nat (List.length body)) ->
    body <> [] ->
    decodePacket (Some (WStr body)) bt = Ok p -> isErr p = true ->
    Malformed bt (len ++ colon :: body ++ rest)
| bad_trailing (len : jsstring) :
    ~ In colon len -> len <> [] -> Malformed bt len.

(** A callback that never returns [false]. *)
Definition neverFalse (cb : Callback) : Prop :=
  forall p i l, cb p i l = ReturnedOther.

(** The string [encodePacket(p, callback)] produces. *)
Definition textOf (p : Packet) : jsstring :=
  match encoded p None with
  | WStr s => s
  | WBuf b => utf8_decode b
  end.

(** The segment of a string body: kind 0, the digits of the length of the
    string, 255, the UTF-8 bytes of the string. *)
Definition binSeg (s : jsstring) : bytes :=
  [x00] ++ sizeDigits (String_of_nat (List.length s)) ++ [xff] ++ utf8_encode s.

(** The binary payload of a sequence of string bodies. *)
Definition binSegs (ss : list jsstring) : bytes :=
  List.concat (List.map binSeg ss).

(** A callback that lets the decoder go on. *)
Definition proceed : Callback := fun _ _ _ => ReturnedOther.

(** A packet with string data, and a packet without data. *)
Definition textPacket (t : PacketType) (s : string) : Packet :=
  mkPacket (Some t) (Some (Text (str s))).

Definition barePacket (t : PacketType) : Packet := mkPacket (Some t) None.

(** The round trip of one packet: encoding succeeds, and decoding the
    result gives the packet back, up to the representation of binary
    data. *)
Definition packetRoundTrip (p : Packet) (supportsBinary : option bool)
    (binaryType : BinaryType) : Prop :=
  exists w p' q,
    encodePacket p supportsBinary = Ok (w, p')
    /\ decodePacket (Some w) binaryType = Ok q
    /\ samePacket q p.

(** How an encoder leaves the packet [p] it was given, as [p']: the type
    is kept; the packet is the same, unless its data is an [ArrayBuffer]
    and the encoder writes it as base64 ([replaced]): the data is then a
    [Buffer] of the same length. *)
Definition leftAs (replaced : bool) (p p' : Packet) : Prop :=
  type p' = type p
  /\ match data p with
     | Some (ArrayBuf b) =>
         if replaced
         then exists buf,
                data p' = Some (Buf buf)
                /\ List.length buf = List.length b
         else p' = p
     | _ => p' = p
     end.


(** A length prefix in canonical decimal form. *)
Definition canonical (len : jsstring) : Prop :=
  exists n, len = String_of_nat n.

(** The calls deliver the packets [ps], in order and nothing else. *)
Definition delivers (tr : list Event) (ps : list Packet) : Prop :=
  Forall2 (fun e p => exists q i t, e = Call q i t /\ samePacket q p) tr ps.

(** The last call carries [index] and [total]. *)
Definition endsWith (tr : list Event) (index total : nat) : Prop :=
  exists tr' q, tr = tr' ++ [Call q index total].

(** The length of an encoded payload: code units or bytes. *)
Definition wireLength (w : Wire) : nat :=
  match w with
  | WStr s => List.length s
  | WBuf b => List.length b
  end.

(** The round trip of a payload as C1 states it. *)
Definition payloadRoundTrip (ps : list Packet) (cap : option bool)
    (binaryType : BinaryType) (callback : Callback) : Prop :=
  exists w ps' tr,
    encodePayload ps cap = Ok (w, ps')
    /\ (exists fuel, decodePayload fuel w binaryType callback = Some tr)
    /\ delivers tr ps
    /\ (ps <> [] -> endsWith tr (List.length ps - 1) (List.length ps)).

(** The packets a payload determines: codable packets; with binary
    support, their text must be ASCII. *)
Definition payloadCodable (cap : option bool) (p : Packet) : bool :=
  codable p None
  && (negb (truthy cap)
      || match data p with
         | Some (Text s) => isAscii s
         | _ => true
         end).

(** The segment of a packet in a text payload. *)
Definition segOf (p : Packet) : jsstring * jsstring :=
  (String_of_nat (List.length (textOf p)), textOf p).

(** The calls of the binary decoder for the packets [ps]: the rank of the
    packet and the number of packets. *)
Fixpoint indexed (ps : list Packet) (bt : BinaryType) (i total : nat)
  : list Event :=
  match ps with
  | [] => []
  | p :: rest => Call (decoded p bt) i total :: indexed rest bt (S i) total
  end.

(** What [decodePacket] makes of a string that does not start with [b]:
    the type read from a first character between [0] and [6], the rest
    as data when there is one; the error packet otherwise. *)
Definition readText (s : jsstring) : Packet :=
  match s with
  | c :: rest =>
      if (48 <=? c)%N && (c <=? 54)%N then
        mkPacket (packetslist_idx (Some (digitVal c)))
          (match rest with
           | [] => None
           | _ => Some (Text rest)
           end)
      else err
  | [] => err
  end.

(** The encoded value is a [Buffer]; the data of a packet is binary. *)
Definition isBuffer (w : Wire) : bool :=
  match w with
  | WBuf _ => true
  | WStr _ => false
  end.

Definition hasBinary (p : Packet) : bool :=
  match data p with
  | Some (Buf _) | Some (ArrayBuf _) => true
  | _ => false
  end.

(** The calls of the text decoder on a payload of [l] code units, from
    the cursor [lo] on, are orderly: each call but an error call carries
    a packet that is not the error packet, an index not below the cursor
    and below [l], and the total [l]; indices increase; an error call
    carries [(0, 1)] and is the last one; nothing is raised. *)
Inductive Orderly (l : nat) : nat -> list Event -> Prop :=
| orderly_nil (lo : nat) : Orderly l lo []
| orderly_err (lo : nat) : Orderly l lo [Call err 0 1]
| orderly_call (lo : nat) (p : Packet) (i : nat) (tr : list Event) :
    lo <= i -> i < l -> isErr p = false -> Orderly l (S i) tr ->
    Orderly l lo (Call p i l :: tr).

(** The calls heed the callback: a call is followed by another one only
    if the callback did not return [false]. *)
Inductive Heeded (cb : Callback) : list Event -> Prop :=
| heeded_nil : Heeded cb []
| heeded_last (e : Event) : Heeded cb [e]
| heeded_cons (p : Packet) (i t : nat) (tr : list Event) :
    cb p i t = ReturnedOther -> Heeded cb tr ->
    Heeded cb (Call p i t :: tr).

(** The calls deliver packets of the types of [ps], in order, none of
    them the error packet. *)
Definition typesDelivered (tr : list Event) (ps : list Packet) : Prop :=
  Forall2 (fun e p => exists q i t,
             e = Call q i t /\ type q = type p /\ isErr q = false) tr ps.

(** The string data of the packet, if any, is ASCII. *)
Definition asciiText (p : Packet) : bool :=
  match data p with
  | Some (Text s) => isAscii s
  | _ => true
  end.

(** A segment of a binary payload, given as its kind byte and its body:
    the kind, the digits of the length of the body, 255, the body. *)
Definition frame (seg : byte * bytes) : bytes :=
  fst seg :: sizeDigits (String_of_nat (List.length (snd seg)))
  ++ xff :: snd seg.

Definition frames (segs : list (byte * bytes)) : bytes :=
  List.concat (List.map frame segs).

(** What the binary decoder hands to [decodePacket] for a segment: the
    body as a string when the kind is 0, as a [Buffer] otherwise. *)
Definition bodyOf (seg : byte * bytes) : Wire :=
  if Byte.eqb (fst seg) x00 then WStr (utf8_decode (snd seg))
  else WBuf (snd seg).


End Props.

(* ================================================================== *)
(** * Facts about the runtime *)
(* ================================================================== *)

Module JSFacts.
Import JS Props.

Lemma str_eqb_true (a b : jsstring) : str_eqb a b = true <-> a = b.
Proof.
  unfold str_eqb. destruct (list_eq_dec N.eq_dec a b); split; congruence.
Qed.

Lemma str_eqb_refl (a : jsstring) : str_eqb a a = true.
Proof. now apply str_eqb_true. Qed.

Lemma str_eqb_false (a b : jsstring) : a <> b -> str_eqb a b = false.
Proof.
  unfold str_eqb. destruct (list_eq_dec N.eq_dec a b); congruence.
Qed.

(** ** Decimal digits *)

Lemma isDigit_cases (c : N) :
  isDigit c = true ->
  (c = 48 \/ c = 49 \/ c = 50 \/ c = 51 \/ c = 52 \/ c = 53 \/ c = 54
   \/ c = 55 \/ c = 56 \/ c = 57)%N.
Proof.
  unfold isDigit. rewrite andb_true_iff, !N.leb_le. lia.
Qed.

Ltac digit_cases H :=
  apply isDigit_cases in H;
  repeat (destruct H as [H | H]; [subst | ]); [ .. | subst].

Lemma digit_not_space (c : N) : isDigit c = true -> isWhiteSpace c = false.
Proof. intros H. digit_cases H; reflexivity. Qed.

Lemma digit_not_colon (c : N) : isDigit c = true -> c <> colon.
Proof. intros H. digit_cases H; discriminate. Qed.

Lemma isDigit_of_nat (d : nat) : d < 10 -> isDigit (48 + N.of_nat d) = true.
Proof.
  intros H. unfold isDigit. rewrite andb_true_iff, !N.leb_le. lia.
Qed.

Lemma digitVal_of_nat (d : nat) : digitVal (48 + N.of_nat d) = N.of_nat d.
Proof. unfold digitVal. lia. Qed.

Lemma digitsVal_snoc (ds : jsstring) (c : N) :
  digitsVal (ds ++ [c]) = (digitsVal ds * 10 + digitVal c)%N.
Proof. unfold digitsVal. now rewrite fold_left_app. Qed.

Lemma digits_fuel_S (f n : nat) (acc : jsstring) :
  digits_fuel (S f) n acc =
  if n <? 10 then (48 + N.of_nat (n mod 10))%N :: acc
  else digits_fuel f (n / 10) ((48 + N.of_nat (n mod 10))%N :: acc).
Proof. reflexivity. Qed.

Lemma digits_fuel_acc (fuel n : nat) (acc : jsstring) :
  digits_fuel fuel n acc = digits_fuel fuel n [] ++ acc.
Proof.
  revert n acc. induction fuel as [|f IH]; intros n acc; [reflexivity|].
  rewrite !digits_fuel_S. destruct (n <? 10); [reflexivity|].
  rewrite IH, (IH _ [_]), <- app_assoc. reflexivity.
Qed.

(** More fuel than needed changes nothing. *)
Lemma digits_fuel_enough (fuel n : nat) (acc : jsstring) :
  n < fuel -> digits_fuel fuel n acc = digits_fuel (S n) n acc.
Proof.
  revert fuel acc. induction n as [n IH] using lt_wf_ind. intros fuel acc Hlt.
  destruct fuel as [|f]; [lia|]. rewrite !digits_fuel_S.
  destruct (n <? 10) eqn:E; [reflexivity|].
  apply Nat.ltb_ge in E.
  assert (Hd : n / 10 < n) by (apply Nat.div_lt; lia).
  rewrite (IH (n / 10) Hd f) by lia.
  rewrite (IH (n / 10) Hd n) by lia. reflexivity.
Qed.

Lemma String_of_nat_small (n : nat) :
  n < 10 -> String_of_nat n = [(48 + N.of_nat n)%N].
Proof.
  intros H. unfold String_of_nat. rewrite digits_fuel_S.
  rewrite (proj2 (Nat.ltb_lt n 10) H), Nat.mod_small by lia. reflexivity.
Qed.

Lemma String_of_nat_step (n : nat) :
  10 <= n ->
  String_of_nat n = String_of_nat (n / 10) ++ [(48 + N.of_nat (n mod 10))%N].
Proof.
  intros H. unfold String_of_nat at 1. rewrite digits_fuel_S.
  rewrite (proj2 (Nat.ltb_ge n 10) H).
  rewrite digits_fuel_acc. f_equal.
  apply digits_fuel_enough. apply Nat.div_lt; lia.
Qed.

(** Induction over the digits of a number. *)
Lemma String_of_nat_ind (P : nat -> jsstring -> Prop) :
  (forall d, d < 10 -> P d [(48 + N.of_nat d)%N]) ->
  (forall n, 10 <= n -> P (n / 10) (String_of_nat (n / 10)) ->
             P n (String_of_nat (n / 10) ++ [(48 + N.of_nat (n mod 10))%N])) ->
  forall n, P n (String_of_nat n).
Proof.
  intros Hs Hi n. induction n as [n IH] using lt_wf_ind.
  destruct (Nat.lt_ge_cases n 10) as [H|H].
  - rewrite String_of_nat_small by assumption. now apply Hs.
  - rewrite String_of_nat_step by assumption. apply Hi; [assumption|].
    apply IH. apply Nat.div_lt; lia.
Qed.

Lemma String_of_nat_digits (n : nat) :
  forallb isDigit (String_of_nat n) = true.
Proof.
  apply (String_of_nat_ind (fun _ s => forallb isDigit s = true)).
  - intros d Hd. cbn [forallb]. now rewrite isDigit_of_nat.
  - intros m _ IH. rewrite forallb_app, IH. cbn [forallb].
    rewrite isDigit_of_nat; [reflexivity|].
    apply Nat.mod_upper_bound. lia.
Qed.

Lemma String_of_nat_nonempty (n : nat) : String_of_nat n <> [].
Proof.
  apply (String_of_nat_ind (fun _ s => s <> [])).
  - discriminate.
  - intros m _ _ E. now apply app_eq_nil in E as [_ E].
Qed.

Lemma digitsVal_String_of_nat (n : nat) :
  digitsVal (String_of_nat n) = N.of_nat n.
Proof.
  apply (String_of_nat_ind (fun n s => digitsVal s = N.of_nat n)).
  - intros d _. unfold digitsVal. cbn [fold_left].
    rewrite digitVal_of_nat. lia.
  - intros m Hm IH. rewrite digitsVal_snoc, IH, digitVal_of_nat.
    rewrite (Nat.div_mod_eq m 10) at 3. lia.
Qed.

Lemma spanDigits_all (s rest : jsstring) :
  forallb isDigit s = true ->
  match rest with [] => True | c :: _ => isDigit c = false end ->
  spanDigits (s ++ rest) = (s, rest).
Proof.
  intros Hs Hr. induction s as [|c s IH]; simpl.
  - destruct rest as [|c r]; [reflexivity|]. simpl. now rewrite Hr.
  - simpl in Hs. apply andb_true_iff in Hs as [Hc Hs].
    rewrite Hc, (IH Hs). reflexivity.
Qed.

Lemma digits_no_space (s : jsstring) :
  forallb isDigit s = true -> forallb (fun c => negb (isWhiteSpace c)) s = true.
Proof.
  intros H. rewrite forallb_forall in *. intros c Hc.
  now rewrite digit_not_space by auto.
Qed.

Lemma dropWhile_head (f : N -> bool) (s : jsstring) :
  match s with [] => True | c :: _ => f c = false end ->
  dropWhile f s = s.
Proof. destruct s as [|c r]; simpl; [reflexivity|]. now intros ->. Qed.

Lemma trim_digits (s : jsstring) : forallb isDigit s = true -> trim s = s.
Proof.
  intros H. apply digits_no_space in H. unfold trim.
  assert (Hh : forall t, forallb (fun c => negb (isWhiteSpace c)) t = true ->
                         dropWhile isWhiteSpace t = t).
  { intros t Ht. apply dropWhile_head. destruct t as [|c r]; [exact I|].
    simpl in Ht. apply andb_true_iff in Ht as [Hc _].
    now apply negb_true_iff in Hc. }
  rewrite (Hh s H), Hh, rev_involutive; [reflexivity|].
  rewrite forallb_forall in *. intros c Hc. apply H. now apply in_rev.
Qed.

Lemma decimalLiteral_digits (s : jsstring) :
  s <> [] -> forallb isDigit s = true ->
  decimalLiteral s = Dec false (digitsVal s) 0.
Proof.
  intros Hne Hd.
  assert (Hspan : spanDigits s = (s, [])).
  { rewrite <- (app_nil_r s) at 1. now apply spanDigits_all. }
  destruct s as [|c r]; [congruence|].
  assert (Hc : isDigit c = true) by (simpl in Hd; now apply andb_true_iff in Hd).
  unfold decimalLiteral.
  digit_cases Hc;
    (rewrite str_eqb_false by discriminate; rewrite Hspan;
     rewrite app_nil_r; reflexivity).
Qed.

(** [Number] of a string of decimal digits, leading zeros included, is the
    value of the digits. *)
Lemma Number_digits (s : jsstring) :
  s <> [] -> forallb isDigit s = true ->
  Number s = Dec false (digitsVal s) 0.
Proof.
  intros Hne Hd. unfold Number. rewrite (trim_digits _ Hd).
  pose proof (decimalLiteral_digits _ Hne Hd) as HD.
  destruct s as [|c r]; [congruence|].
  assert (Hc : isDigit c = true) by (simpl in Hd; now apply andb_true_iff in Hd).
  digit_cases Hc; try exact HD.
  destruct r as [|x ds]; [exact HD|].
  assert (Hx : isDigit x = true).
  { simpl in Hd. now rewrite !andb_true_iff in Hd. }
  replace ((x =? 120)%N || (x =? 88)%N) with false; [exact HD|].
  digit_cases Hx; reflexivity.
Qed.

Lemma Number_String_of_nat (n : nat) :
  Number (String_of_nat n) = Dec false (N.of_nat n) 0.
Proof.
  rewrite Number_digits, digitsVal_String_of_nat;
    auto using String_of_nat_nonempty, String_of_nat_digits.
Qed.

(** ** Bytes *)

Lemma to_N_lt (b : byte) : (Byte.to_N b < 256)%N.
Proof. pose proof (Byte.to_N_bounded b). lia. Qed.

Lemma to_byte_to_N (b : byte) : to_byte (Byte.to_N b) = b.
Proof.
  unfold to_byte. rewrite N.mod_small by apply to_N_lt.
  now rewrite Byte.of_to_N.
Qed.

Lemma to_N_to_byte (n : N) : Byte.to_N (to_byte n) = (n mod 256)%N.
Proof.
  unfold to_byte. destruct (Byte.of_N (n mod 256)) as [b|] eqn:E.
  - now apply Byte.to_of_N.
  - apply Byte.of_N_None_iff in E.
    pose proof (N.mod_upper_bound n 256). lia.
Qed.

(** ** base64 *)

Lemma b64char_inv (i : N) :
  (i < 64)%N -> unbase64 (b64char i) = Some i /\ (b64char i =? pad)%N = false.
Proof.
  intros H. rewrite <- (N2Nat.id i).
  assert (Hk : N.to_nat i < 64) by lia.
  generalize dependent (N.to_nat i). clear. intros k Hk.
  do 64 (destruct k as [|k]; [vm_compute; split; reflexivity|]). lia.
Qed.

Lemma base64_sextets_char (i : N) (r : jsstring) :
  (i < 64)%N -> base64_sextets (b64char i :: r) = i :: base64_sextets r.
Proof.
  intros H. destruct (b64char_inv _ H) as [H1 H2].
  cbn [base64_sextets]. now rewrite H2, H1.
Qed.

Lemma base64_sextets_pad (r : jsstring) : base64_sextets (pad :: r) = [].
Proof. reflexivity. Qed.

Lemma base64_encode_3 (a b c : byte) (r : bytes) :
  base64_encode (a :: b :: c :: r) =
  (let x := Byte.to_N a in
   let y := Byte.to_N b in
   let z := Byte.to_N c in
   [b64char (x / 4); b64char ((x mod 4) * 16 + y / 16);
    b64char ((y mod 16) * 4 + z / 64); b64char (z mod 64)]%N)
  ++ base64_encode r.
Proof. reflexivity. Qed.

Lemma bytes_ind3 (P : bytes -> Prop) :
  P [] -> (forall a, P [a]) -> (forall a b, P [a; b]) ->
  (forall a b c r, P r -> P (a :: b :: c :: r)) ->
  forall l, P l.
Proof.
  intros H0 H1 H2 H3.
  fix IH 1. intros [|a [|b [|c r]]];
    [apply H0 | apply H1 | apply H2 | apply H3; apply IH].
Qed.

Section Sextets.
Local Ltac Zify.zify_post_hook ::= Z.to_euclidean_division_equations.

Lemma group_bounds (x y z : N) :
  (x < 256 -> y < 256 -> z < 256 ->
   x / 4 < 64 /\ (x mod 4) * 16 + y / 16 < 64 /\ (x mod 4) * 16 < 64
   /\ (y mod 16) * 4 + z / 64 < 64 /\ (y mod 16) * 4 < 64 /\ z mod 64 < 64)%N.
Proof. intros. repeat split; lia. Qed.

Lemma sextet_high (h l : N) :
  (l < 16 -> (h * 16 + l) / 16 = h /\ (h * 16 + l) mod 16 = l)%N.
Proof. intros. split; lia. Qed.

Lemma sextet_low (h l : N) :
  (l < 4 -> (h * 4 + l) / 4 = h /\ (h * 4 + l) mod 4 = l)%N.
Proof. intros. split; lia. Qed.

Lemma group_first (x y : N) :
  (y < 256 -> x / 4 * 4 + ((x mod 4) * 16 + y / 16) / 16 = x)%N.
Proof.
  intros. rewrite (proj1 (@sextet_high (x mod 4) (y / 16) ltac:(lia)))%N. lia.
Qed.

Lemma group_second (x y z : N) :
  (y < 256 -> z < 256 ->
   ((x mod 4) * 16 + y / 16) mod 16 * 16 + ((y mod 16) * 4 + z / 64) / 4 = y)%N.
Proof.
  intros.
  rewrite (proj2 (@sextet_high (x mod 4) (y / 16) ltac:(lia)))%N.
  rewrite (proj1 (@sextet_low (y mod 16) (z / 64) ltac:(lia)))%N. lia.
Qed.

Lemma group_third (y z : N) :
  (z < 256 -> ((y mod 16) * 4 + z / 64) mod 4 * 64 + z mod 64 = z)%N.
Proof.
  intros. rewrite (proj2 (@sextet_low (y mod 16) (z / 64) ltac:(lia)))%N. lia.
Qed.

End Sextets.

(** Decoding the base64 form of a buffer gives the buffer back. *)
Lemma base64_roundtrip (bs : bytes) : base64_decode (base64_encode bs) = bs.
Proof.
  unfold base64_decode. induction bs as [|a|a b|a b c r IH] using bytes_ind3.
  - reflexivity.
  - pose proof (to_N_lt a) as Ha.
    destruct (group_bounds _ _ _ Ha Ha Ha) as (B1 & _ & B2 & _).
    cbn [base64_encode].
    rewrite !base64_sextets_char, base64_sextets_pad by assumption.
    cbn [base64_bytes].
    pose proof (@group_first (Byte.to_N a) 0 ltac:(lia)) as E.
    rewrite N.Div0.div_0_l, N.add_0_r in E.
    now rewrite E, to_byte_to_N.
  - pose proof (to_N_lt a) as Ha. pose proof (to_N_lt b) as Hb.
    destruct (group_bounds _ _ _ Ha Hb Hb) as (B1 & B2 & _ & _ & B3 & _).
    cbn [base64_encode].
    rewrite !base64_sextets_char, base64_sextets_pad by assumption.
    cbn [base64_bytes].
    pose proof (@group_second (Byte.to_N a) (Byte.to_N b) 0 Hb ltac:(lia)) as E.
    rewrite N.Div0.div_0_l, N.add_0_r in E.
    now rewrite group_first, E, !to_byte_to_N by assumption.
  - pose proof (to_N_lt a) as Ha. pose proof (to_N_lt b) as Hb.
    pose proof (to_N_lt c) as Hc.
    destruct (group_bounds _ _ _ Ha Hb Hc) as (B1 & B2 & _ & B3 & _ & B4).
    rewrite base64_encode_3. cbv zeta. cbn [app].
    rewrite !base64_sextets_char by assumption.
    cbn [base64_bytes].
    rewrite group_first, group_second, group_third, !to_byte_to_N by assumption.
    now rewrite IH.
Qed.

(** ** UTF-8 of ASCII text *)

Lemma utf8_encode_ascii (s : jsstring) :
  isAscii s = true -> utf8_encode s = List.map to_byte s.
Proof.
  induction s as [|c r IH]; [reflexivity|].
  unfold isAscii. cbn [forallb]. rewrite andb_true_iff, N.ltb_lt.
  intros [Hc Hr]. cbn [utf8_encode List.map].
  assert (H1 : isHighSurrogate c = false).
  { unfold isHighSurrogate. apply andb_false_iff. left. apply N.leb_gt. lia. }
  assert (H2 : isLowSurrogate c = false).
  { unfold isLowSurrogate. apply andb_false_iff. left. apply N.leb_gt. lia. }
  rewrite H1, H2. unfold utf8_of_codepoint.
  rewrite (proj2 (N.ltb_lt c 128) Hc). cbn [app]. now rewrite IH.
Qed.

Lemma utf8_loop_ascii (s : jsstring) (fuel : nat) :
  isAscii s = true -> List.length s <= fuel ->
  utf8_loop fuel (List.map to_byte s) = s.
Proof.
  revert fuel. induction s as [|c r IH]; intros fuel Hs Hf.
  - now destruct fuel.
  - unfold isAscii in Hs. cbn [forallb] in Hs.
    apply andb_true_iff in Hs as [Hc Hr]. apply N.ltb_lt in Hc.
    destruct fuel as [|f]; [cbn in Hf; lia|].
    cbn [List.map utf8_loop]. unfold utf8_step, byteAt.
    cbn [nth_error option_map]. rewrite to_N_to_byte.
    rewrite N.mod_small by lia. rewrite (proj2 (N.ltb_lt c 128) Hc).
    cbn [skipn app]. rewrite IH; [reflexivity|assumption|cbn in Hf; lia].
Qed.

Lemma utf8_roundtrip_ascii (s : jsstring) :
  isAscii s = true -> utf8_decode (utf8_encode s) = s.
Proof.
  intros H. rewrite utf8_encode_ascii by assumption.
  unfold utf8_decode. apply utf8_loop_ascii; [assumption|].
  now rewrite length_map.
Qed.

Lemma utf8_length_ascii (s : jsstring) :
  isAscii s = true -> List.length (utf8_encode s) = List.length s.
Proof.
  intros H. rewrite utf8_encode_ascii by assumption. apply length_map.
Qed.

(** ** [substr] *)

Lemma countOf_natural (v : JSNumber) (n : N) (avail : nat) :
  to_natural v = Some n -> countOf v avail = N.to_nat (N.min n (N.of_nat avail)).
Proof.
  unfold to_natural, countOf.
  destruct (toDouble v) as [|neg|neg num den]; try discriminate.
  destruct (num =? 0)%N eqn:E0.
  - apply N.eqb_eq in E0. subst num. intros [= <-].
    rewrite N.Div0.div_0_l, !N.min_0_l. now destruct neg.
  - destruct neg; [discriminate|].
    destruct (_ mod _ =? 0)%N; congruence.
Qed.

Lemma substr_natural (s : jsstring) (start : nat) (v : JSNumber) (n : N) :
  to_natural v = Some n ->
  substr s start v = firstn (N.to_nat n) (skipn start s).
Proof.
  intros H. unfold substr. rewrite (@countOf_natural v n _ H).
  destruct (N.le_ge_cases n (N.of_nat (List.length (skipn start s)))) as [L|L].
  - now rewrite N.min_l.
  - rewrite N.min_r, Nat2N.id, firstn_all by assumption.
    symmetry. apply firstn_all2. lia.
Qed.

Lemma str_ne_nat_natural (s : jsstring) (n : N) (k : nat) :
  to_natural (Number s) = Some n ->
  str_ne_nat s k = negb (n =? N.of_nat k)%N.
Proof. intros H. unfold str_ne_nat. now rewrite H. Qed.

End JSFacts.

(* ================================================================== *)
(** * Facts about the single-packet codec *)
(* ================================================================== *)

Module PacketFacts.
Import JS JSFacts Parser Props.

Lemma sameData_refl (d : option Data) : sameData d d.
Proof. destruct d as [[s|b|b]|]; reflexivity. Qed.

Lemma samePacket_refl (p : Packet) : samePacket p p.
Proof. split; [reflexivity|apply sameData_refl]. Qed.

Lemma validType_cases (t : option PacketType) :
  validType t = true ->
  t = Some open \/ t = Some close \/ t = Some ping \/ t = Some pong
  \/ t = Some message \/ t = Some upgrade \/ t = Some noop.
Proof. destruct t as [[]|]; cbn; intros; try discriminate; tauto. Qed.

Ltac type_cases H :=
  apply validType_cases in H;
  repeat (destruct H as [H | H]; [subst | ]); [ .. | subst].

Lemma String_of_code_valid (t : option PacketType) :
  validType t = true -> String_of_code (packets t) = [typeChar t].
Proof. intros H. type_cases H; reflexivity. Qed.

Lemma typeChar_digit (t : option PacketType) :
  validType t = true -> isDigit (typeChar t) = true.
Proof. intros H. type_cases H; reflexivity. Qed.

Lemma typeChar_key (t : option PacketType) :
  validType t = true -> packetslist_key [typeChar t] = t.
Proof. intros H. type_cases H; reflexivity. Qed.

Lemma typeChar_Number (t : option PacketType) :
  validType t = true -> isNaN (Number [typeChar t]) = false.
Proof. intros H. type_cases H; reflexivity. Qed.

Lemma typeChar_not_b (t : option PacketType) :
  validType t = true -> str_eqb [typeChar t] (str "b") = false.
Proof. intros H. type_cases H; reflexivity. Qed.

Lemma byte_of_code_idx (t : option PacketType) :
  validType t = true ->
  packetslist_idx (Some (Byte.to_N (byte_of_code (packets t)))) = t.
Proof. intros H. type_cases H; reflexivity. Qed.

(** ** The encoder *)

(** [encodePacket] never raises. *)
Lemma encodePacket_Ok (p : Packet) (sb : option bool) :
  encodePacket p sb = Ok (encoded p sb, after p sb).
Proof.
  destruct p as [t [[s|b|b]|]]; unfold encodePacket, encoded, after;
    cbn [data type]; try reflexivity;
    destruct (truthy sb); cbn [negb]; try reflexivity;
    unfold encodeBase64Packet; cbn [data type bind];
    now rewrite <- app_assoc.
Qed.

(** An array of packets may hold the same object twice.  The second
    encoding then starts from the packet as the first one left it; it
    produces the same value and leaves the same packet, so the elements of
    an array can be taken as distinct objects. *)
Lemma after_idempotent (p : Packet) (sb : option bool) :
  encoded (after p sb) sb = encoded p sb /\ after (after p sb) sb = after p sb.
Proof.
  unfold encoded, after.
  destruct p as [t [[s|b|b]|]]; cbn [data type]; try (split; reflexivity).
  destruct (truthy sb) eqn:E; cbn [data type]; rewrite ?E;
    split; reflexivity.
Qed.

(** Without binary support the result is always a string. *)
Lemma encoded_text (p : Packet) (sb : option bool) :
  truthy sb = false -> exists s, encoded p sb = WStr s.
Proof.
  intros H. unfold encoded. rewrite H.
  destruct (data p) as [[s|b|b]|]; eauto.
Qed.

(** ** The decoder on the output of the encoder *)

Lemma decode_text (t : option PacketType) (s : jsstring) (bt : BinaryType) :
  validType t = true -> s <> [] ->
  decodePacket (Some (WStr (typeChar t :: s))) bt
  = Ok (mkPacket t (Some (Text s))).
Proof.
  intros Ht Hs. unfold decodePacket. cbn [charAt nth_error].
  rewrite typeChar_not_b, typeChar_Number, typeChar_key by assumption.
  assert (Hty : validType t = true) by assumption.
  type_cases Ht; cbn [orb]; destruct s; try congruence; reflexivity.
Qed.

Lemma decode_bare (t : option PacketType) (bt : BinaryType) :
  validType t = true ->
  decodePacket (Some (WStr [typeChar t])) bt = Ok (mkPacket t None).
Proof.
  intros Ht. unfold decodePacket. cbn [charAt nth_error].
  rewrite typeChar_not_b, typeChar_Number, typeChar_key by assumption.
  type_cases Ht; reflexivity.
Qed.

Lemma decode_base64 (t : option PacketType) (b : bytes) (bt : BinaryType) :
  validType t = true ->
  decodePacket (Some (WStr (str "b" ++ [typeChar t] ++ base64_encode b))) bt
  = Ok (mkPacket t (Some (binaryData bt b))).
Proof.
  intros Ht. unfold decodePacket. change (str "b") with [98%N].
  cbn [app charAt nth_error]. rewrite str_eqb_refl.
  unfold decodeBase64Packet, substring. cbn [skipn charAt nth_error].
  rewrite typeChar_key, base64_roundtrip by assumption.
  now destruct bt.
Qed.

Lemma decode_binary (t : option PacketType) (b : bytes) (bt : BinaryType) :
  validType t = true ->
  decodePacket (Some (WBuf (byte_of_code (packets t) :: b))) bt
  = Ok (mkPacket t (Some (binaryData bt b))).
Proof.
  intros Ht. unfold decodePacket, byteAt. cbn [nth_error option_map].
  rewrite byte_of_code_idx by assumption. now destruct bt.
Qed.

Lemma decoded_same (p : Packet) (bt : BinaryType) : samePacket (decoded p bt) p.
Proof.
  destruct p as [t [[s|b|b]|]]; destruct bt; split; reflexivity.
Qed.

Lemma decode_encoded (p : Packet) (sb : option bool) (bt : BinaryType) :
  codable p sb = true ->
  decodePacket (Some (encoded p sb)) bt = Ok (decoded p bt).
Proof.
  unfold codable, validPacket. rewrite andb_true_iff. intros [Ht Hd].
  destruct p as [t [[s|b|b]|]]; unfold encoded, decoded;
    cbn [data type] in *; rewrite ?String_of_code_valid by assumption.
  - destruct s as [|c s]; [discriminate|].
    now apply decode_text.
  - destruct (truthy sb); [now apply decode_binary|now apply decode_base64].
  - rewrite Hd. now apply decode_binary.
  - now apply decode_bare.
Qed.

Lemma decoded_not_err (p : Packet) (bt : BinaryType) :
  validPacket p = true -> isErr (decoded p bt) = false.
Proof.
  unfold validPacket. intros Ht.
  assert (E : type (decoded p bt) = type p).
  { unfold decoded. now destruct (data p) as [[s|b|b]|]. }
  unfold isErr. rewrite E. type_cases Ht; rewrite Ht; reflexivity.
Qed.

End PacketFacts.

(* ================================================================== *)
(** * Facts about the text payload decoder *)
(* ================================================================== *)

Module TextFacts.
Import JS JSFacts Parser Props PacketFacts.

Lemma option_map_app_nil (A : Type) (o : option (list A)) :
  option_map (app []) o = o.
Proof. now destruct o. Qed.

Lemma option_map_app_app (A : Type) (a b : list A) (o : option (list A)) :
  option_map (app a) (option_map (app b) o) = option_map (app (a ++ b)) o.
Proof. destruct o; cbn; [now rewrite app_assoc|reflexivity]. Qed.

(** What [skipn i data = c :: r] says about position [i]. *)
Lemma skipn_cons (A : Type) (data : list A) (i : nat) (c : A) (r : list A) :
  skipn i data = c :: r ->
  nth_error data i = Some c /\ skipn (S i) data = r /\ i < List.length data.
Proof.
  revert data. induction i as [|i IH]; intros [|d data] H; try discriminate.
  - cbn in H. injection H as -> ->. cbn. repeat split. lia.
  - cbn [skipn] in H. destruct (IH _ H) as (H1 & H2 & H3).
    cbn [nth_error List.length]. repeat split; [assumption..|lia].
Qed.

Lemma skipn_app_cons (A : Type) (data : list A) (i : nat) (a r : list A) :
  skipn i data = a ++ r -> skipn (i + List.length a) data = r.
Proof.
  intros H. rewrite Nat.add_comm, <- skipn_skipn, H.
  now rewrite skipn_app, skipn_all, Nat.sub_diag.
Qed.

Section Loop.

Variable data : jsstring.
Variable bt : BinaryType.
Variable cb : Callback.

Lemma decodeLoop_S (fuel i : nat) (len : jsstring) :
  decodeLoop (S fuel) data bt cb i len =
  if List.length data <=? i then Some (afterLoop len)
  else match loopBody data bt cb i len with
       | Return calls => Some calls
       | Next calls i len =>
           option_map (app calls) (decodeLoop fuel data bt cb (S i) len)
       end.
Proof. reflexivity. Qed.

(** A pass never moves the cursor backwards. *)
Lemma loopBody_progress (i : nat) (len : jsstring) calls i' len' :
  loopBody data bt cb i len = Next calls i' len' -> i <= i'.
Proof.
  unfold loopBody.
  destruct (negb _); [intros [= _ <- _]; lia|].
  destruct (_ || _); [discriminate|].
  destruct (str_ne_nat _ _); [discriminate|].
  destruct (substr _ _ _) as [|c msg]; [intros [= _ <- _]; lia|].
  destruct (decodePacket _ _) as [p|e]; [|discriminate].
  destruct (isErr p); [discriminate|].
  destruct (cb _ _ _); [discriminate|intros [= _ <- _]; lia].
Qed.

(** The loop ends: [data.length - i + 1] passes are enough. *)
Lemma decodeLoop_total (fuel i : nat) (len : jsstring) :
  List.length data - i < fuel ->
  exists tr, decodeLoop fuel data bt cb i len = Some tr.
Proof.
  revert i len. induction fuel as [|fuel IH]; intros i len H; [lia|].
  rewrite decodeLoop_S. destruct (Nat.leb_spec (List.length data) i); [eauto|].
  destruct (loopBody data bt cb i len) as [calls|calls i' len'] eqn:E; [eauto|].
  apply loopBody_progress in E.
  destruct (IH (S i') len') as [tr ->]; [lia|]. cbn. eauto.
Qed.

(** With enough fuel the result does not depend on the fuel. *)
Lemma decodeLoop_stable (fuel fuel' i : nat) (len : jsstring) :
  List.length data - i < fuel -> List.length data - i < fuel' ->
  decodeLoop fuel data bt cb i len = decodeLoop fuel' data bt cb i len.
Proof.
  revert fuel' i len.
  induction fuel as [|fuel IH]; intros [|fuel'] i len H H'; try lia.
  rewrite !decodeLoop_S.
  destruct (Nat.leb_spec (List.length data) i); [reflexivity|].
  destruct (loopBody data bt cb i len) as [calls|calls i' len'] eqn:E;
    [reflexivity|].
  apply loopBody_progress in E. f_equal. apply IH; lia.
Qed.

(** *** One pass *)

Lemma body_char (i : nat) (len : jsstring) (c : N) :
  nth_error data i = Some c -> c <> colon ->
  loopBody data bt cb i len = Next [] i (len ++ [c]).
Proof.
  intros H Hc. unfold loopBody, charAt. rewrite H.
  rewrite str_eqb_false; [reflexivity|].
  intros [= E]. now apply Hc.
Qed.

Lemma body_reject_prefix (i : nat) (len : jsstring) :
  nth_error data i = Some colon ->
  len = [] \/ isNaN (Number len) = true ->
  loopBody data bt cb i len = Return [Call err 0 1].
Proof.
  intros H Hl. unfold loopBody, charAt. rewrite H.
  change (str_eqb (str ":") [colon]) with true. cbn [negb].
  destruct Hl as [-> | ->]; [reflexivity|]. now rewrite orb_true_r.
Qed.

Lemma natural_not_NaN (v : JSNumber) (n : N) :
  to_natural v = Some n -> isNaN v = false.
Proof. now destruct v. Qed.

(** At a colon, with a prefix that is empty or does not read as a natural
    number: the first test rejects the empty prefix and NaN, the
    comparison with the length of [msg] every other number. *)
Lemma body_reject_number (i : nat) (len : jsstring) :
  nth_error data i = Some colon ->
  len = [] \/ to_natural (Number len) = None ->
  loopBody data bt cb i len = Return [Call err 0 1].
Proof.
  intros H [-> | Hn]; [now apply body_reject_prefix; [|left]|].
  unfold loopBody, charAt. rewrite H.
  change (str_eqb (str ":") [colon]) with true. cbn [negb].
  destruct (str_eqb [] len || isNaN (Number len)); [reflexivity|].
  unfold str_ne_nat. now rewrite Hn.
Qed.

(** At a colon, with a prefix that reads as the natural number [n]. *)
Lemma body_colon (i : nat) (len : jsstring) (n : N) :
  nth_error data i = Some colon -> len <> [] ->
  to_natural (Number len) = Some n ->
  loopBody data bt cb i len =
  let msg := firstn (N.to_nat n) (skipn (i + 1) data) in
  if negb (n =? N.of_nat (List.length msg))%N then Return [Call err 0 1]
  else
    match msg with
    | _ :: _ =>
        match decodePacket (Some (WStr msg)) bt with
        | Throw e => Return [Raise e]
        | Ok packet =>
            if isErr packet then Return [Call err 0 1]
            else
              match cb packet (i + List.length msg) (List.length data) with
              | ReturnedFalse =>
                  Return [Call packet (i + List.length msg) (List.length data)]
              | ReturnedOther =>
                  Next [Call packet (i + List.length msg) (List.length data)]
                    (i + List.length msg) []
              end
        end
    | [] => Next [] (i + List.length msg) []
    end.
Proof.
  intros H Hl Hn. unfold loopBody, charAt. rewrite H.
  change (str_eqb (str ":") [colon]) with true. cbn [negb].
  rewrite (str_eqb_false _ _ (not_eq_sym Hl)), (natural_not_NaN _ _ Hn).
  cbn [orb]. rewrite (substr_natural _ _ _ _ Hn), (str_ne_nat_natural _ _ _ Hn).
  reflexivity.
Qed.

(** The declared length exceeds what is left of the input. *)
Lemma body_short (i : nat) (len : jsstring) (n : N) :
  nth_error data i = Some colon -> len <> [] ->
  to_natural (Number len) = Some n ->
  (N.of_nat (List.length (skipn (i + 1) data)) < n)%N ->
  loopBody data bt cb i len = Return [Call err 0 1].
Proof.
  intros H Hl Hn Hs. rewrite (body_colon _ _ _ H Hl Hn). cbv zeta.
  rewrite firstn_all2 by lia.
  now rewrite (proj2 (N.eqb_neq _ _)) by lia.
Qed.

(** The declared length is the length of [body], which follows. *)
Lemma body_exact (i : nat) (len body rest : jsstring) :
  nth_error data i = Some colon -> len <> [] ->
  to_natural (Number len) = Some (N.of_nat (List.length body)) ->
  skipn (i + 1) data = body ++ rest ->
  loopBody data bt cb i len =
  match body with
  | _ :: _ =>
      match decodePacket (Some (WStr body)) bt with
      | Throw e => Return [Raise e]
      | Ok packet =>
          if isErr packet then Return [Call err 0 1]
          else
            match cb packet (i + List.length body) (List.length data) with
            | ReturnedFalse =>
                Return [Call packet (i + List.length body) (List.length data)]
            | ReturnedOther =>
                Next [Call packet (i + List.length body) (List.length data)]
                  (i + List.length body) []
            end
      end
  | [] => Next [] (i + List.length body) []
  end.
Proof.
  intros H Hl Hn Hs. rewrite (body_colon _ _ _ H Hl Hn). cbv zeta.
  rewrite Hs, Nat2N.id, firstn_app, Nat.sub_diag, firstn_all, firstn_O.
  rewrite app_nil_r, N.eqb_refl. reflexivity.
Qed.

(** *** Reading a length prefix *)

Lemma scan_prefix (fuel i : nat) (acc len rest : jsstring) :
  List.length data - i < fuel ->
  skipn i data = len ++ rest -> ~ In colon len ->
  decodeLoop fuel data bt cb i acc =
  decodeLoop fuel data bt cb (i + List.length len) (acc ++ len).
Proof.
  revert fuel i acc. induction len as [|c len IH]; intros fuel i acc Hf Hs Hc.
  - now rewrite Nat.add_0_r, app_nil_r.
  - destruct (skipn_cons _ _ _ _ _ Hs) as (Hn & Hs' & Hi).
    destruct fuel as [|fuel]; [lia|]. rewrite decodeLoop_S.
    rewrite (proj2 (Nat.leb_gt _ _) Hi).
    rewrite body_char with (c := c); [|assumption|].
    2:{ intros ->. apply Hc. now left. }
    rewrite option_map_app_nil.
    rewrite (decodeLoop_stable fuel (S fuel)) by lia.
    rewrite (IH (S fuel) (S i) (acc ++ [c])); [|lia|assumption|].
    2:{ intros Hin. apply Hc. now right. }
    rewrite <- app_assoc. cbn [List.length app].
    now rewrite Nat.add_succ_r.
Qed.

(** *** Well-formed segments are delivered in order *)

Lemma seg_run (fuel i : nat) (seg : jsstring * jsstring) (rest : jsstring) :
  List.length data - i < fuel -> neverFalse cb ->
  skipn i data = segText seg ++ rest -> goodSeg bt seg ->
  decodeLoop fuel data bt cb i [] =
  option_map (app (segCalls bt (List.length data) i seg))
    (decodeLoop fuel data bt cb (i + List.length (segText seg)) []).
Proof.
  destruct seg as [len body]. unfold segText. cbn [fst snd].
  intros Hf Hcb Hs (Hc & Hl & Hn & Hp). rewrite <- app_assoc in Hs.
  rewrite (scan_prefix fuel i [] len _ Hf Hs Hc). cbn [app].
  apply skipn_app_cons in Hs. cbn [app] in Hs.
  destruct (skipn_cons _ _ _ _ _ Hs) as (Hcol & Hs' & Hi).
  destruct fuel as [|fuel]; [lia|]. rewrite decodeLoop_S.
  rewrite (proj2 (Nat.leb_gt _ _) Hi).
  replace (S (i + List.length len)) with (i + List.length len + 1) in Hs'
    by lia.
  rewrite (body_exact _ len body rest Hcol Hl Hn Hs').
  rewrite length_app. cbn [List.length].
  replace (i + (List.length len + S (List.length body)))
    with (S (i + List.length len + List.length body)) by lia.
  unfold segCalls. cbn [fst snd].
  destruct body as [|c body].
  - rewrite (decodeLoop_stable fuel (S fuel)) by (cbn [List.length]; lia).
    reflexivity.
  - destruct Hp as (p & Hdec & Herr); [discriminate|].
    rewrite Hdec, Herr, Hcb.
    rewrite (decodeLoop_stable fuel (S fuel)) by (cbn [List.length]; lia).
    reflexivity.
Qed.

Lemma segs_run (fuel i : nat) (segs : list (jsstring * jsstring))
    (rest : jsstring) :
  List.length data - i < fuel -> neverFalse cb ->
  skipn i data = segsText segs ++ rest -> Forall (goodSeg bt) segs ->
  decodeLoop fuel data bt cb i [] =
  option_map (app (segsCalls bt (List.length data) i segs))
    (decodeLoop fuel data bt cb (i + List.length (segsText segs)) []).
Proof.
  intros Hf Hcb. revert i Hf.
  induction segs as [|seg segs IH]; intros i Hf Hs Hg.
  - cbn. now rewrite Nat.add_0_r, option_map_app_nil.
  - inversion Hg as [|? ? Hseg Hsegs]; subst.
    unfold segsText in Hs. cbn [List.map List.concat] in Hs.
    fold (segsText segs) in Hs. rewrite <- app_assoc in Hs.
    rewrite (seg_run fuel i seg _ Hf Hcb Hs Hseg).
    rewrite (IH (i + List.length (segText seg))); [|lia| |assumption].
    2:{ now apply skipn_app_cons in Hs. }
    rewrite option_map_app_app. cbn [segsCalls].
    unfold segsText at 2. cbn [List.map List.concat]. fold (segsText segs).
    now rewrite length_app, Nat.add_assoc.
Qed.

(** *** A malformed segment ends the decoding with the error packet *)

Lemma malformed_run (fuel i : nat) (bad : jsstring) :
  List.length data - i < fuel ->
  skipn i data = bad -> Malformed bt bad ->
  decodeLoop fuel data bt cb i [] = Some [Call err 0 1].
Proof.
  intros Hf Hs Hbad.
  destruct Hbad as [len rest Hc Hl|len rest n Hc Hl Hn Hlt
                   |len body rest p Hc Hl Hn Hb Hdec Herr|len Hc Hl].
  - rewrite (scan_prefix fuel i [] len _ Hf Hs Hc). cbn [app].
    apply skipn_app_cons in Hs.
    destruct (skipn_cons _ _ _ _ _ Hs) as (Hcol & _ & Hi).
    destruct fuel as [|fuel]; [lia|]. rewrite decodeLoop_S.
    rewrite (proj2 (Nat.leb_gt _ _) Hi).
    now rewrite (body_reject_number _ _ Hcol Hl).
  - rewrite (scan_prefix fuel i [] len _ Hf Hs Hc). cbn [app].
    apply skipn_app_cons in Hs.
    destruct (skipn_cons _ _ _ _ _ Hs) as (Hcol & Hs' & Hi).
    destruct fuel as [|fuel]; [lia|]. rewrite decodeLoop_S.
    rewrite (proj2 (Nat.leb_gt _ _) Hi).
    rewrite (body_short _ _ n Hcol Hl Hn); [reflexivity|].
    now rewrite Nat.add_1_r, Hs'.
  - rewrite (scan_prefix fuel i [] len _ Hf Hs Hc). cbn [app].
    apply skipn_app_cons in Hs.
    destruct (skipn_cons _ _ _ _ _ Hs) as (Hcol & Hs' & Hi).
    destruct fuel as [|fuel]; [lia|]. rewrite decodeLoop_S.
    rewrite (proj2 (Nat.leb_gt _ _) Hi).
    rewrite <- Nat.add_1_r in Hs'.
    rewrite (body_exact _ len body rest Hcol Hl Hn Hs').
    destruct body as [|c body]; [congruence|]. now rewrite Hdec, Herr.
  - rewrite <- (app_nil_r len) in Hs.
    rewrite (scan_prefix fuel i [] len _ Hf Hs Hc). cbn [app].
    apply skipn_app_cons in Hs.
    destruct fuel as [|fuel]; [lia|]. rewrite decodeLoop_S.
    assert (Hi : List.length data <= i + List.length len).
    { destruct (Nat.le_gt_cases (List.length data) (i + List.length len))
        as [L|L]; [assumption|].
      apply (f_equal (@List.length _)) in Hs.
      rewrite length_skipn in Hs. cbn in Hs. lia. }
    rewrite (proj2 (Nat.leb_le _ _) Hi). unfold afterLoop.
    now rewrite (str_eqb_false _ _ Hl).
Qed.

End Loop.

(** The text decoder returns on every string. *)
Lemma decodePayload_text_returns (fuel : nat) (data : jsstring)
    (bt : BinaryType) (cb : Callback) :
  exists tr, decodePayload fuel (WStr data) bt cb = Some tr.
Proof.
  unfold decodePayload. destruct (str_eqb data []); [eauto|].
  apply decodeLoop_total. lia.
Qed.

End TextFacts.

(* ================================================================== *)
(** * Facts about the binary payload codec *)
(* ================================================================== *)

Module BinaryFacts.
Import JS JSFacts Parser Props PacketFacts.

(** ** The encoder *)

Lemma encoded_None (p : Packet) : encoded p None = WStr (textOf p).
Proof.
  unfold textOf. destruct (encoded_text p None eq_refl) as [s ->].
  reflexivity.
Qed.

Lemma encodeOneAsBinary_Ok (p : Packet) :
  encodeOneAsBinary p = Ok (binSeg (textOf p), after p None).
Proof.
  unfold encodeOneAsBinary. rewrite encodePacket_Ok, encoded_None.
  cbn [bind]. unfold binSeg. now rewrite <- !app_assoc.
Qed.

Lemma map_encodeOneAsBinary (ps : list Packet) :
  Parser.map ps encodeOneAsBinary
  = Ok (List.map (fun p => binSeg (textOf p)) ps,
        List.map (fun p => after p None) ps).
Proof.
  induction ps as [|p ps IH]; [reflexivity|].
  cbn [Parser.map]. rewrite encodeOneAsBinary_Ok, IH. reflexivity.
Qed.

Lemma encodePayloadAsBinary_Ok (ps : list Packet) :
  encodePayloadAsBinary ps
  = Ok (List.concat (List.map (fun p => binSeg (textOf p)) ps),
        List.map (fun p => after p None) ps).
Proof.
  destruct ps as [|p ps]; [reflexivity|].
  unfold encodePayloadAsBinary. now rewrite map_encodeOneAsBinary.
Qed.

(** ** The decoder *)

Lemma digit_cell (c : N) :
  isDigit c = true ->
  exists b, sizeDigits [c] = [b] /\ b <> xff /\ String_of_cell (Some b) = [c].
Proof.
  intros H. digit_cases H; eexists; (split; [reflexivity|]);
    (split; [discriminate|reflexivity]).
Qed.

Lemma sizeDigits_cons (c : N) (ds : jsstring) :
  sizeDigits (c :: ds) = sizeDigits [c] ++ sizeDigits ds.
Proof. reflexivity. Qed.

Lemma scanLength_S (fuel : nat) (bufferTail : bytes) (i : nat)
    (strLen : jsstring) :
  scanLength (S fuel) bufferTail i strLen =
  match nth_error bufferTail i with
  | Some xff => Some strLen
  | c => scanLength fuel bufferTail (S i) (strLen ++ String_of_cell c)
  end.
Proof. reflexivity. Qed.

Lemma scanLength_other (fuel : nat) (bufferTail : bytes) (i : nat)
    (strLen : jsstring) (b : byte) :
  nth_error bufferTail i = Some b -> b <> xff ->
  scanLength (S fuel) bufferTail i strLen =
  scanLength fuel bufferTail (S i) (strLen ++ String_of_cell (Some b)).
Proof.
  intros H Hb. rewrite scanLength_S, H. destruct b; congruence.
Qed.

(** Reading a header written by the encoder gives the digits back. *)
Lemma scan_digits (fuel : nat) (bufferTail : bytes) (i : nat)
    (ds acc : jsstring) (rest : bytes) :
  skipn i bufferTail = sizeDigits ds ++ xff :: rest ->
  forallb isDigit ds = true -> List.length ds < fuel ->
  scanLength fuel bufferTail i acc = Some (acc ++ ds).
Proof.
  revert fuel i acc.
  induction ds as [|c ds IH]; intros fuel i acc Hs Hd Hf.
  - cbn [sizeDigits List.map app] in Hs.
    destruct (TextFacts.skipn_cons _ _ _ _ _ Hs) as (Hn & _).
    destruct fuel as [|fuel]; [cbn in Hf; lia|].
    rewrite scanLength_S, Hn. now rewrite app_nil_r.
  - cbn [forallb] in Hd. apply andb_true_iff in Hd as [Hc Hd].
    destruct (digit_cell c Hc) as (b & Hb & Hne & Hcell).
    rewrite sizeDigits_cons, Hb in Hs. cbn [app] in Hs.
    destruct (TextFacts.skipn_cons _ _ _ _ _ Hs) as (Hn & Hs' & _).
    destruct fuel as [|fuel]; [cbn in Hf; lia|].
    rewrite (scanLength_other _ _ _ _ b Hn Hne), Hcell.
    rewrite (IH fuel (S i) (acc ++ [c]) Hs' Hd); [|cbn in Hf; lia].
    now rewrite <- app_assoc.
Qed.

Lemma sizeDigits_length (ds : jsstring) :
  List.length (sizeDigits ds) = List.length ds.
Proof. apply length_map. Qed.

Lemma parseInt_String_of_nat (n : nat) :
  parseInt (String_of_nat n) = Some (N.of_nat n).
Proof.
  unfold parseInt. rewrite <- (app_nil_r (String_of_nat n)) at 1.
  rewrite spanDigits_all by (auto using String_of_nat_digits).
  pose proof (String_of_nat_nonempty n) as Hne.
  pose proof (digitsVal_String_of_nat n) as Hv.
  destruct (String_of_nat n); congruence.
Qed.

Lemma bound_le (len k : nat) : k <= len -> bound len (Some (N.of_nat k)) = k.
Proof. intros H. unfold bound. rewrite N.min_l by lia. apply Nat2N.id. Qed.

Lemma splitBuffers_S (fuel : nat) (bufferTail : bytes) (buffers : list Wire) :
  splitBuffers (S fuel) bufferTail buffers =
  match bufferTail with
  | [] => Some buffers
  | cell0 :: _ =>
      match scanLength fuel bufferTail 1 [] with
      | None => None
      | Some strLen =>
          let bufferTail :=
            sliceFrom bufferTail (Some (N.of_nat (List.length strLen + 1))) in
          let msgEnd := option_map (fun m => m + 1)%N (parseInt strLen) in
          let msg := slice bufferTail (Some 1%N) msgEnd in
          splitBuffers fuel (sliceFrom bufferTail msgEnd)
            (buffers ++ [if Byte.eqb cell0 x00 then WStr (utf8_decode msg)
                         else WBuf msg])
      end
  end.
Proof. reflexivity. Qed.

Lemma sliceFrom_header (x : byte) (ds : jsstring) (tail : bytes) :
  sliceFrom (x :: sizeDigits ds ++ tail)
    (Some (N.of_nat (List.length ds + 1))) = tail.
Proof.
  unfold sliceFrom. rewrite bound_le.
  - rewrite Nat.add_1_r. cbn [skipn].
    rewrite <- (sizeDigits_length ds).
    now rewrite skipn_app, skipn_all, Nat.sub_diag.
  - cbn [List.length]. rewrite length_app, sizeDigits_length. lia.
Qed.

Lemma slice_body (x : byte) (body rest : bytes) :
  slice (x :: body ++ rest) (Some 1%N)
    (Some (N.of_nat (List.length body) + 1)%N) = body.
Proof.
  unfold slice. cbn [List.length]. rewrite length_app.
  replace (N.of_nat (List.length body) + 1)%N
    with (N.of_nat (S (List.length body))) by lia.
  change 1%N with (N.of_nat 1). rewrite !bound_le by lia. cbn [skipn].
  replace (S (List.length body) - 1) with (List.length body) by lia.
  now rewrite firstn_app, Nat.sub_diag, firstn_all, firstn_O, app_nil_r.
Qed.

Lemma sliceFrom_body (x : byte) (body rest : bytes) :
  sliceFrom (x :: body ++ rest)
    (Some (N.of_nat (List.length body) + 1)%N) = rest.
Proof.
  unfold sliceFrom. cbn [List.length]. rewrite length_app.
  replace (N.of_nat (List.length body) + 1)%N
    with (N.of_nat (S (List.length body))) by lia.
  rewrite bound_le by lia. cbn [skipn].
  now rewrite skipn_app, skipn_all, Nat.sub_diag.
Qed.

(** One segment written by the encoder for an ASCII string is read back
    as that string. *)
Lemma split_seg (fuel : nat) (s : jsstring) (rest : bytes)
    (buffers : list Wire) :
  isAscii s = true -> List.length (binSeg s ++ rest) <= fuel ->
  splitBuffers (S fuel) (binSeg s ++ rest) buffers
  = splitBuffers fuel rest (buffers ++ [WStr s]).
Proof.
  intros Ha Hf. unfold binSeg in *.
  rewrite <- !app_assoc in *. cbn [app] in *.
  cbn [List.length] in Hf. rewrite length_app, sizeDigits_length in Hf.
  rewrite splitBuffers_S.
  rewrite (scan_digits fuel _ 1 (String_of_nat (List.length s)) []
             (utf8_encode s ++ rest));
    [|reflexivity|apply String_of_nat_digits|lia].
  cbn [app]. cbv zeta. rewrite parseInt_String_of_nat. cbn [option_map].
  rewrite sliceFrom_header.
  rewrite <- (utf8_length_ascii s Ha).
  rewrite slice_body, sliceFrom_body.
  change (Byte.eqb x00 x00) with true. cbv iota.
  now rewrite (utf8_roundtrip_ascii s Ha).
Qed.

Lemma split_run (fuel : nat) (ss : list jsstring) (buffers : list Wire) :
  forallb isAscii ss = true -> List.length (binSegs ss) < fuel ->
  splitBuffers fuel (binSegs ss) buffers
  = Some (buffers ++ List.map WStr ss).
Proof.
  revert fuel buffers.
  induction ss as [|s ss IH]; intros fuel buffers Ha Hf.
  - destruct fuel; [cbn in Hf; lia|]. cbn. now rewrite app_nil_r.
  - cbn [forallb] in Ha. apply andb_true_iff in Ha as [Hs Ha].
    unfold binSegs in *. cbn [List.map List.concat] in *.
    destruct fuel as [|fuel]; [lia|].
    rewrite split_seg by (assumption || lia).
    rewrite IH; [|assumption|].
    + now rewrite <- app_assoc.
    + rewrite length_app in Hf.
      assert (0 < List.length (binSeg s)) by (cbn; lia). lia.
Qed.

End BinaryFacts.

(* ================================================================== *)
(** * Properties of the codec *)
(* ================================================================== *)

Import JS JSFacts Parser Props PacketFacts TextFacts BinaryFacts.

(** ** The scenarios of the specification *)

Example encode_text_packet :
  encodePacket (textPacket message "hello world") (Some false)
  = Ok (WStr (str "4hello world"), textPacket message "hello world").
Proof. reflexivity. Qed.

Example decode_text_packet :
  decodePacket (Some (WStr (str "4hello world"))) nodebuffer
  = Ok (textPacket message "hello world").
Proof. reflexivity. Qed.

Example encode_binary_packet :
  encodePacket (mkPacket (Some message) (Some (Buf [x01; x02; x03])))
    (Some true)
  = Ok (WBuf [x04; x01; x02; x03],
        mkPacket (Some message) (Some (Buf [x01; x02; x03]))).
Proof. reflexivity. Qed.

Example encode_base64_packet :
  encodePacket (mkPacket (Some message) (Some (Buf [x01; x02; x03])))
    (Some false)
  = Ok (WStr (str "b4AQID"),
        mkPacket (Some message) (Some (Buf [x01; x02; x03]))).
Proof. reflexivity. Qed.

Example encode_text_payload :
  encodePayload [textPacket message "hello"; barePacket ping] (Some false)
  = Ok (WStr (str "6:4hello1:2"),
        [textPacket message "hello"; barePacket ping]).
Proof. reflexivity. Qed.

Example decode_text_payload :
  decodePayload 0 (WStr (str "12:4hello world3:4hi")) nodebuffer proceed
  = Some [Call (textPacket message "hello world") 14 20;
          Call (textPacket message "hi") 19 20].
Proof. reflexivity. Qed.

Example decode_empty_payload :
  decodePayload 0 (WStr (str "")) nodebuffer proceed = Some [Call err 0 1].
Proof. reflexivity. Qed.

Example decode_unknown_type :
  decodePayload 0 (WStr (str "1:a")) nodebuffer proceed
  = Some [Call err 0 1].
Proof. reflexivity. Qed.

(** A callback that returns [false] stops the text decoder. *)
Example decode_stopped :
  decodePayload 0 (WStr (str "1:21:3")) nodebuffer
    (fun _ _ _ => ReturnedFalse)
  = Some [Call (barePacket ping) 2 6].
Proof. reflexivity. Qed.

Example decode_binary_payload :
  decodePayload 10 (WBuf [x00; x06; xff; x34; x68; x65; x6c; x6c; x6f])
    arraybuffer proceed
  = Some [Call (textPacket message "hello") 0 1].
Proof. reflexivity. Qed.

(** ** Single packets *)

(** C2, as stated, fails: a valid packet whose data is the empty string is
    encoded as its type digit alone, and decoded as a packet without
    data. *)
Lemma packet_roundtrip_empty_text :
  validPacket (textPacket message "") = true
  /\ ~ packetRoundTrip (textPacket message "") (Some false) nodebuffer.
Proof.
  split; [reflexivity|].
  intros (w & p' & q & He & Hd & _ & Hs).
  rewrite encodePacket_Ok in He. injection He as <- <-.
  vm_compute in Hd. injection Hd as <-. exact Hs.
Qed.

(** C2, amended: for every packet of one of the seven types whose data is
    absent, a non-empty string, a [Buffer], or an [ArrayBuffer] sent with
    binary support, and for every [supportsBinary] and [binaryType],
    decoding the encoded packet gives a packet of the same type and the
    same data, a [Buffer] and an [ArrayBuffer] of the same bytes being the
    same data. *)
Theorem packet_roundtrip (p : Packet) (supportsBinary : option bool)
    (binaryType : BinaryType) :
  codable p supportsBinary = true ->
  packetRoundTrip p supportsBinary binaryType.
Proof.
  intros H. exists (encoded p supportsBinary), (after p supportsBinary),
    (decoded p binaryType).
  split; [apply encodePacket_Ok|].
  split; [now apply decode_encoded|apply decoded_same].
Qed.

Lemma packet_roundtrip_witness :
  codable (mkPacket (Some message) (Some (Buf [x01; x02; x03]))) (Some false)
  = true
  /\ packetRoundTrip (mkPacket (Some message) (Some (Buf [x01; x02; x03])))
       (Some false) arraybuffer.
Proof.
  split; [reflexivity|apply packet_roundtrip; reflexivity].
Defined.

(** C4: the base64 branch and the binary branch of [decodePacket] look the
    type up in [packetslist] and do not check the result; on a type code
    out of range they return a packet whose type is [undefined], which is
    neither one of the seven types nor the error packet. *)
Theorem decoded_type_undefined :
  decodePacket (Some (WStr (str "b7"))) nodebuffer
  = Ok (mkPacket None (Some (Buf [])))
  /\ decodeBase64Packet (str "7") nodebuffer = mkPacket None (Some (Buf []))
  /\ decodePacket (Some (WBuf [x07])) nodebuffer
     = Ok (mkPacket None (Some (Buf [])))
  /\ validPacket (mkPacket None (Some (Buf []))) = false
  /\ mkPacket None (Some (Buf [])) <> err.
Proof. repeat split; try reflexivity. discriminate. Qed.

(** C6: [decodePacket] takes the string branch when its argument is
    [undefined] and reads [data.charAt] there, which raises a TypeError;
    [encodeBase64Packet] raises on a packet without data, and the binary
    branch of [decodePacket] on an empty buffer when an [ArrayBuffer] is
    asked for. *)
Theorem decodePacket_undefined_raises :
  (forall binaryType, decodePacket None binaryType = Throw TypeError)
  /\ encodeBase64Packet (barePacket ping) = Throw TypeError
  /\ decodePacket (Some (WBuf [])) arraybuffer = Throw RangeError.
Proof. repeat split. Qed.

(** ** Packets are left as they were, but for [ArrayBuffer] data *)

(** C9, as stated, fails: [encodeBase64Packet] replaces the [ArrayBuffer]
    of the packet it is given by a [Buffer]; so do [encodePacket] and
    [encodePayload] without binary support, which call it. *)
Lemma packet_data_replaced :
  let p := mkPacket (Some message) (Some (ArrayBuf [x01; x02; x03])) in
  exists m p',
    encodeBase64Packet p = Ok (m, p')
    /\ encodePacket p (Some false) = Ok (WStr m, p')
    /\ encodePayload [p] (Some false) = Ok (WStr (str "6:" ++ m), [p'])
    /\ data p' <> data p.
Proof.
  cbv zeta. eexists. eexists.
  split; [reflexivity|]. split; [reflexivity|].
  split; [reflexivity|]. discriminate.
Qed.

Lemma after_type (p : Packet) (sb : option bool) : type (after p sb) = type p.
Proof.
  unfold after. destruct (data p) as [[s|b|b]|]; try reflexivity.
  now destruct (truthy sb).
Qed.

Lemma after_leftAs (p : Packet) (sb : option bool) :
  leftAs (negb (truthy sb)) p (after p sb).
Proof.
  split; [apply after_type|]. unfold after.
  destruct (data p) as [[s|b|b]|]; try reflexivity.
  destruct (truthy sb); cbn [negb]; [reflexivity|].
  exists (repeat x00 (List.length b)). split; [reflexivity|].
  apply repeat_length.
Qed.

Lemma encodeBase64Packet_after (p : Packet) (m : jsstring) (p' : Packet) :
  encodeBase64Packet p = Ok (m, p') -> p' = after p (Some false).
Proof.
  unfold encodeBase64Packet, after.
  destruct p as [t [[s|b|b]|]]; cbn [data type truthy];
    try discriminate; now intros [= _ <-].
Qed.

Lemma map_text_Ok (ps : list Packet) (sb : option bool) :
  Parser.map ps (fun packet =>
    bind (encodePacket packet sb) (fun '(msg, p') =>
    Ok (setLengthHeader msg, p')))
  = Ok (List.map (fun p => setLengthHeader (encoded p sb)) ps,
        List.map (fun p => after p sb) ps).
Proof.
  induction ps as [|p ps IH]; [reflexivity|].
  cbn [Parser.map]. rewrite encodePacket_Ok. cbn [bind].
  rewrite IH. reflexivity.
Qed.

(** What [encodePayload] hands to its callback, and the packets as it
    leaves them. *)
Lemma encodePayload_Ok (ps : list Packet) (sb : option bool) :
  encodePayload ps sb =
  Ok (if truthy sb
      then WBuf (List.concat (List.map (fun p => binSeg (textOf p)) ps))
      else match ps with
           | [] => WStr (str "0:")
           | _ => WStr (List.concat
                          (List.map (fun p => setLengthHeader (encoded p sb))
                             ps))
           end,
      List.map (fun p => after p (if truthy sb then None else sb)) ps).
Proof.
  unfold encodePayload. destruct (truthy sb).
  - now rewrite encodePayloadAsBinary_Ok.
  - destruct ps as [|p ps]; [reflexivity|]. now rewrite map_text_Ok.
Qed.

(** C9, amended: no encoder changes the type of a packet it is given,
    and each leaves the packet as it was unless its data is an
    [ArrayBuffer] that is encoded as base64: by [encodeBase64Packet], by
    [encodePacket] without binary support, by [encodePayload] with or
    without it (the binary payload encoder encodes every packet without
    the flag).  The data of the packet is then a [Buffer] of the same
    length.  In a payload this holds packet by packet. *)
Theorem packets_preserved (p : Packet) (ps : list Packet)
    (supportsBinary : option bool) :
  (forall m p', encodeBase64Packet p = Ok (m, p') -> leftAs true p p')
  /\ (forall w p', encodePacket p supportsBinary = Ok (w, p') ->
        leftAs (negb (truthy supportsBinary)) p p')
  /\ (forall w ps', encodePayload ps supportsBinary = Ok (w, ps') ->
        Forall2 (leftAs true) ps ps').
Proof.
  split; [|split].
  - intros m p' H. apply encodeBase64Packet_after in H. subst.
    apply (after_leftAs p (Some false)).
  - intros w p' H. rewrite encodePacket_Ok in H. injection H as _ <-.
    apply after_leftAs.
  - intros w ps' H. rewrite encodePayload_Ok in H. injection H as _ <-.
    induction ps as [|q qs IH]; constructor; [|exact IH].
    destruct (truthy supportsBinary) eqn:E.
    + apply (after_leftAs q None).
    + pose proof (after_leftAs q supportsBinary) as L.
      now rewrite E in L.
Qed.

Lemma packets_preserved_witness :
  let p := mkPacket (Some message) (Some (ArrayBuf [x01; x02; x03])) in
  let q := mkPacket (Some message) (Some (Buf [x01; x02; x03])) in
  exists w p' q',
    encodePayload [p; q] (Some true) = Ok (w, [p'; q'])
    /\ type p' = Some message
    /\ (exists buf, data p' = Some (Buf buf) /\ List.length buf = 3)
    /\ q' = q.
Proof.
  cbv zeta. eexists. eexists. eexists. split; [reflexivity|].
  destruct (packets_preserved
              (barePacket ping)
              [mkPacket (Some message) (Some (ArrayBuf [x01; x02; x03]));
               mkPacket (Some message) (Some (Buf [x01; x02; x03]))]
              (Some true)) as (_ & _ & H).
  specialize (H _ _ eq_refl).
  inversion H as [|? ? ? ? [Ht Hd] H' ]; subst.
  inversion H' as [|? ? ? ? [_ Hq] _]; subst.
  split; [exact Ht|]. split; [exact Hd|exact Hq].
Defined.

(** ** The binary payload format *)


(** Past the end of the buffer no cell is equal to 255: the loop that
    reads the length never ends. *)
Lemma scan_past_end (fuel : nat) (bufferTail : bytes) (i : nat)
    (strLen : jsstring) :
  (forall j, i <= j -> nth_error bufferTail j <> Some xff) ->
  scanLength fuel bufferTail i strLen = None.
Proof.
  revert i strLen. induction fuel as [|fuel IH]; intros i strLen H;
    [reflexivity|].
  destruct (nth_error bufferTail i) as [b|] eqn:E.
  - assert (Hb : b <> xff) by (intros ->; now apply (H i)).
    rewrite (scanLength_other fuel bufferTail i strLen b E Hb).
    apply IH. intros j Hj. apply H. lia.
  - rewrite scanLength_S, E. apply IH. intros j Hj. apply H. lia.
Qed.

(** A buffer whose first segment has no 255 after its kind byte is never
    decoded. *)
Lemma split_no_terminator (fuel : nat) (kind : byte) (rest : bytes)
    (buffers : list Wire) :
  ~ In xff rest -> splitBuffers fuel (kind :: rest) buffers = None.
Proof.
  intros H. destruct fuel as [|fuel]; [reflexivity|]. rewrite splitBuffers_S.
  rewrite scan_past_end; [reflexivity|].
  intros [|j] Hj E; [lia|]. cbn [nth_error] in E.
  apply H. eapply nth_error_In. exact E.
Qed.

Lemma scan_more_fuel (fuel fuel' : nat) (bufferTail : bytes) (i : nat)
    (strLen r : jsstring) :
  scanLength fuel bufferTail i strLen = Some r -> fuel <= fuel' ->
  scanLength fuel' bufferTail i strLen = Some r.
Proof.
  revert fuel' i strLen.
  induction fuel as [|fuel IH]; intros [|fuel'] i strLen H Hf;
    try discriminate; try lia.
  rewrite scanLength_S in *.
  destruct (nth_error bufferTail i) as [b|];
    [destruct b|]; try exact H; (apply IH; [exact H|lia]).
Qed.

Lemma parseInt_digits (ds : jsstring) :
  ds <> [] -> forallb isDigit ds = true -> parseInt ds = Some (digitsVal ds).
Proof.
  intros Hne Hd. unfold parseInt. rewrite <- (app_nil_r ds) at 1.
  rewrite spanDigits_all by auto. destruct ds; congruence.
Qed.

(** One well-formed segment, then a stray byte: the segment is read, and
    the decoder never gets past the stray byte. *)
Lemma split_stray (fuel : nat) (kind stray : byte) (ds : jsstring)
    (body : bytes) (buffers : list Wire) :
  ds <> [] -> forallb isDigit ds = true ->
  digitsVal ds = N.of_nat (List.length body) ->
  splitBuffers fuel (kind :: sizeDigits ds ++ xff :: body ++ [stray]) buffers
  = None.
Proof.
  intros Hne Hd Hv. destruct fuel as [|fuel]; [reflexivity|].
  rewrite splitBuffers_S.
  destruct (scanLength fuel _ 1 []) as [strLen|] eqn:E; [|reflexivity].
  apply scan_more_fuel with (fuel' := fuel + S (List.length ds)) in E;
    [|lia].
  rewrite (scan_digits _ _ 1 ds [] (body ++ [stray])) in E;
    [|reflexivity|assumption|lia].
  injection E as <-. cbn [app]. cbv zeta.
  rewrite sliceFrom_header, (parseInt_digits ds Hne Hd), Hv.
  cbn [option_map]. rewrite sliceFrom_body.
  apply split_no_terminator. intros [].
Qed.

(** C3: for a string with a character outside ASCII the digits of the
    header are those of the number of UTF-16 code units of the string (2
    for ["4é"]), not those of the number of bytes of the body that follows
    (3).  The binary decoder reads the digits as a number of bytes: on this
    payload it is left with one stray byte and never returns.  On ASCII
    text the two numbers agree, as for the packet (message, "hello"). *)
Theorem binary_header_counts_code_units :
  encodePayloadAsBinary [mkPacket (Some message) (Some (Text [233%N]))]
  = Ok ([x00; x02; xff] ++ [x34; xc3; xa9],
        [mkPacket (Some message) (Some (Text [233%N]))])
  /\ (forall fuel binaryType,
        decodePayloadAsBinary fuel ([x00; x02; xff] ++ [x34; xc3; xa9])
          binaryType = None)
  /\ encodePayloadAsBinary [textPacket message "hello"]
     = Ok ([x00; x06; xff; x34; x68; x65; x6c; x6c; x6f],
           [textPacket message "hello"]).
Proof.
  split; [reflexivity|]. split; [|reflexivity].
  intros fuel bt. unfold decodePayloadAsBinary.
  pose proof (split_stray fuel x00 xa9 [50%N] [x34; xc3] []
                ltac:(discriminate) eq_refl eq_refl) as H.
  change (splitBuffers fuel ([x00; x02; xff] ++ [x34; xc3; xa9]) [] = None)
    in H.
  now rewrite H.
Qed.

(** C7: on the one-byte buffer [[0]], on a header that is not ended by
    255, and on a complete segment followed by one stray byte, the loop
    that reads the length runs past the end of the buffer and never ends:
    no call of the callback is made and no error packet is produced,
    whatever the number of iterations allowed. *)
Theorem binary_decoder_diverges (fuel : nat) (binaryType : BinaryType) :
  decodePayloadAsBinary fuel [x00] binaryType = None
  /\ decodePayloadAsBinary fuel [x00; x01; x02] binaryType = None
  /\ decodePayloadAsBinary fuel [x00; x01; xff; x32; x07] binaryType = None.
Proof.
  unfold decodePayloadAsBinary. split; [|split].
  - rewrite split_no_terminator; [reflexivity|intros []].
  - rewrite split_no_terminator; [reflexivity|].
    cbn. intuition discriminate.
  - pose proof (split_stray fuel x00 x07 [49%N] [x32] []
                  ltac:(discriminate) eq_refl eq_refl) as H.
    change (splitBuffers fuel [x00; x01; xff; x32; x07] [] = None) in H.
    now rewrite H.
Qed.

(** ** The text payload decoder at a colon *)

(** C8, as stated, fails: the prefix ["01"] is not the canonical form of a
    number, and the decoder accepts it as 1 and delivers the packet. *)
Lemma leading_zero_accepted :
  nth_error (str "01:2") 2 = Some colon
  /\ ~ canonical (str "01")
  /\ loopBody (str "01:2") nodebuffer proceed 2 (str "01")
     = Next [Call (barePacket ping) 3 4] 3 []
  /\ decodePayload 0 (WStr (str "01:2")) nodebuffer proceed
     = Some [Call (barePacket ping) 3 4].
Proof.
  split; [reflexivity|]. split; [|split; reflexivity].
  intros [n H].
  assert (Hn : n = 1).
  { apply (f_equal digitsVal) in H.
    rewrite digitsVal_String_of_nat in H.
    change (digitsVal (str "01")) with 1%N in H. lia. }
  subst n. vm_compute in H. discriminate H.
Qed.

Lemma to_natural_Dec0 (m : N) : to_natural (Dec false m 0) = Some m.
Proof.
  unfold to_natural. cbn [toDouble]. destruct (m =? 0)%N eqn:E.
  - apply N.eqb_eq in E. now subst.
  - change (0 <=? 0)%Z with true. cbv iota.
    change (10 ^ Z.to_N 0)%N with 1%N. rewrite N.mul_1_r, E.
    now rewrite N.mod_1_r, N.div_1_r.
Qed.

Lemma to_natural_digits (len : jsstring) :
  len <> [] -> forallb isDigit len = true ->
  to_natural (Number len) = Some (digitsVal len).
Proof.
  intros Hne Hd. rewrite (Number_digits len Hne Hd). apply to_natural_Dec0.
Qed.

(** C8, amended: when the decoder reads a colon, the prefix is accepted
    only if it is not empty and [Number] reads it as a non-negative
    integer [n]: otherwise (NaN, a negative number, a fraction, an
    infinity) the decoder fails with the error packet.  It also fails if
    fewer than [n] code units remain after the colon.  If [n] code units
    remain, the packet they hold is delivered, and nothing is delivered
    when [n] is 0.  The prefix need not be the canonical form of [n]:
    decimal digits, leading zeros included, are read as their value. *)
Theorem colon_reads_number (data : jsstring) (binaryType : BinaryType)
    (callback : Callback) (i : nat) (length : jsstring) :
  nth_error data i = Some colon ->
  (length = [] \/ to_natural (Number length) = None ->
   loopBody data binaryType callback i length = Return [Call err 0 1])
  /\ (forall n, length <> [] -> to_natural (Number length) = Some n ->
      (N.of_nat (List.length (skipn (i + 1) data)) < n)%N ->
      loopBody data binaryType callback i length = Return [Call err 0 1])
  /\ (forall body rest p,
      length <> [] ->
      to_natural (Number length) = Some (N.of_nat (List.length body)) ->
      skipn (i + 1) data = body ++ rest -> body <> [] ->
      decodePacket (Some (WStr body)) binaryType = Ok p -> isErr p = false ->
      loopBody data binaryType callback i length =
      match callback p (i + List.length body) (List.length data) with
      | ReturnedFalse =>
          Return [Call p (i + List.length body) (List.length data)]
      | ReturnedOther =>
          Next [Call p (i + List.length body) (List.length data)]
            (i + List.length body) []
      end)
  /\ (length <> [] -> to_natural (Number length) = Some 0%N ->
      loopBody data binaryType callback i length = Next [] i [])
  /\ (length <> [] -> forallb isDigit length = true ->
      to_natural (Number length) = Some (digitsVal length)).
Proof.
  intros Hcol. split; [|split; [|split; [|split]]].
  - now apply body_reject_number.
  - intros n Hne Hn Hs. now apply (body_short data _ _ i length n).
  - intros body rest p Hne Hn Hs Hb Hdec Herr.
    rewrite (body_exact data binaryType callback i length body rest
               Hcol Hne Hn Hs).
    destruct body as [|c body]; [congruence|]. now rewrite Hdec, Herr.
  - intros Hne Hn.
    rewrite (body_exact data binaryType callback i length []
               (skipn (i + 1) data) Hcol Hne Hn eq_refl).
    cbn [List.length]. now rewrite Nat.add_0_r.
  - apply to_natural_digits.
Qed.

Lemma colon_reads_number_witness :
  nth_error (str "01:2") 2 = Some colon
  /\ loopBody (str "01:2") nodebuffer proceed 2 (str "01")
     = Next [Call (barePacket ping) 3 4] 3 []
  /\ loopBody (str "1.5:2x") nodebuffer proceed 3 (str "1.5")
     = Return [Call err 0 1].
Proof.
  split; [reflexivity|]. split.
  - destruct (colon_reads_number (str "01:2") nodebuffer proceed 2
                (str "01") eq_refl) as (_ & _ & H & _).
    apply (H (str "2") [] (barePacket ping));
      try reflexivity; discriminate.
  - destruct (colon_reads_number (str "1.5:2x") nodebuffer proceed 3
                (str "1.5") eq_refl) as (H & _).
    apply H. right. reflexivity.
Defined.

(** Prefixes that are numbers, but not the number of code units of a
    body: each ends the decoding with the error packet. *)
Example decode_number_prefixes :
  decodePayload 0 (WStr (str "-1:2")) nodebuffer proceed
  = Some [Call err 0 1]
  /\ decodePayload 0 (WStr (str "1.5:2x")) nodebuffer proceed
     = Some [Call err 0 1]
  /\ decodePayload 0 (WStr (str "Infinity:2")) nodebuffer proceed
     = Some [Call err 0 1].
Proof. repeat split. Qed.

(** Prefixes whose double is a natural number are read as that number:
    [1.00000000000000000001] is 1, [1e-400] is 0 (an empty segment). *)
Example decode_rounded_prefixes :
  decodePayload 0 (WStr (str "1.00000000000000000001:2")) nodebuffer proceed
  = Some [Call (barePacket ping) 23 24]
  /\ decodePayload 0 (WStr (str "1e-400:1:2")) nodebuffer proceed
     = Some [Call (barePacket ping) 9 10].
Proof. split; vm_compute; reflexivity. Qed.

(** ** Malformed text payloads *)

Lemma ping_segment_good : goodSeg nodebuffer (str "1", str "2").
Proof.
  cbn [goodSeg]. split; [cbn; intuition discriminate|].
  split; [discriminate|]. split; [reflexivity|].
  intros _. exists (barePacket ping). split; reflexivity.
Qed.

Lemma negative_prefix_malformed : Malformed nodebuffer (str "-1:2").
Proof.
  apply (bad_prefix nodebuffer (str "-1") (str "2")).
  - cbn. intuition discriminate.
  - right. reflexivity.
Qed.

Lemma unknown_type_malformed : Malformed nodebuffer (str "1:a").
Proof.
  apply (bad_body nodebuffer (str "1") (str "a") [] err);
    try reflexivity; try discriminate.
  cbn. intuition discriminate.
Qed.

(** C5, as stated, fails: in ["1:21:a"] the second segment is malformed
    (its body decodes to the error packet); the packet of the first
    segment has been delivered when the error is found, so the callback
    is invoked twice. *)
Lemma later_segment_malformed :
  goodSeg nodebuffer (str "1", str "2")
  /\ Malformed nodebuffer (str "1:a")
  /\ decodePayload 0 (WStr (str "1:2" ++ str "1:a")) nodebuffer proceed
     = Some [Call (barePacket ping) 2 6; Call err 0 1]
  /\ decodePayload 0 (WStr (str "1:2" ++ str "1:a")) nodebuffer proceed
     <> Some [Call err 0 1].
Proof.
  split; [apply ping_segment_good|].
  split; [apply unknown_type_malformed|].
  split; [reflexivity|discriminate].
Qed.

Lemma Malformed_nonempty (bt : BinaryType) (bad : jsstring) :
  Malformed bt bad -> bad <> [].
Proof.
  intros [len rest| len rest n| len body rest p| len]; intros;
    try assumption; now destruct len.
Qed.

(** C5, amended: on a text payload made of well-formed segments followed
    by a malformed one, the decoder delivers the packets of the
    well-formed segments, then invokes the callback once with the error
    packet and [(0, 1)], and stops; when the first segment is the
    malformed one, this is its only call.  A segment is malformed when
    its prefix is empty or is not read by [Number] as a non-negative
    integer, when its body is shorter than declared or decodes to the
    error packet, and when it has no colon. *)
Theorem malformed_segment_rejected (segs : list (jsstring * jsstring))
    (bad : jsstring) (binaryType : BinaryType) (callback : Callback)
    (fuel : nat) :
  Malformed binaryType bad ->
  decodePayload fuel (WStr bad) binaryType callback = Some [Call err 0 1]
  /\ (neverFalse callback -> Forall (goodSeg binaryType) segs ->
      decodePayload fuel (WStr (segsText segs ++ bad)) binaryType callback
      = Some (segsCalls binaryType (List.length (segsText segs ++ bad)) 0 segs
              ++ [Call err 0 1])).
Proof.
  intros Hbad. pose proof (Malformed_nonempty _ _ Hbad) as Hne. split.
  - unfold decodePayload. rewrite str_eqb_false by assumption.
    apply malformed_run with (bad := bad); [lia|reflexivity|assumption].
  - intros Hcb Hgood. unfold decodePayload.
    rewrite str_eqb_false.
    2:{ intros E. apply app_eq_nil in E. now destruct E. }
    rewrite (segs_run _ binaryType callback _ 0 segs bad);
      [|lia|assumption|reflexivity|assumption].
    rewrite (malformed_run _ binaryType callback _ _ bad);
      [reflexivity|lia| |assumption].
    cbn [Nat.add]. now rewrite skipn_app, skipn_all, Nat.sub_diag.
Qed.

Lemma malformed_segment_rejected_witness :
  Malformed nodebuffer (str "1:a")
  /\ Malformed nodebuffer (str "-1:2")
  /\ neverFalse proceed
  /\ Forall (goodSeg nodebuffer) [(str "1", str "2")]
  /\ decodePayload 0 (WStr (str "1:2" ++ str "1:a")) nodebuffer proceed
     = Some [Call (barePacket ping) 2 6; Call err 0 1]
  /\ decodePayload 0 (WStr (str "1:2" ++ str "-1:2")) nodebuffer proceed
     = Some [Call (barePacket ping) 2 7; Call err 0 1]
  /\ decodePayload 0 (WStr (str "-1:2")) nodebuffer proceed
     = Some [Call err 0 1].
Proof.
  assert (Hcb : neverFalse proceed) by (intros p i l; reflexivity).
  assert (Hgood : Forall (goodSeg nodebuffer) [(str "1", str "2")])
    by (constructor; [exact ping_segment_good|constructor]).
  split; [exact unknown_type_malformed|].
  split; [exact negative_prefix_malformed|].
  split; [exact Hcb|]. split; [exact Hgood|].
  split; [|split].
  - exact (proj2 (malformed_segment_rejected [(str "1", str "2")]
                    (str "1:a") nodebuffer proceed 0 unknown_type_malformed)
             Hcb Hgood).
  - exact (proj2 (malformed_segment_rejected [(str "1", str "2")]
                    (str "-1:2") nodebuffer proceed 0
                    negative_prefix_malformed)
             Hcb Hgood).
  - exact (proj1 (malformed_segment_rejected [] (str "-1:2") nodebuffer
                    proceed 0 negative_prefix_malformed)).
Defined.

(** ** Payload round trip *)

(** C1, as stated, fails: the text decoder passes the position of the end
    of the packet in the payload and the length of the payload, not the
    rank of the packet and the number of packets; for the payload
    ["6:4hello"] of one packet the only call carries [(7, 8)], not
    [(0, 1)]. *)
Lemma text_payload_index_is_offset :
  decodePayload 0 (WStr (str "6:4hello")) nodebuffer proceed
  = Some [Call (textPacket message "hello") 7 8]
  /\ ~ payloadRoundTrip [textPacket message "hello"] (Some false) nodebuffer
         proceed.
Proof.
  split; [reflexivity|].
  intros (w & ps' & tr & He & [fuel Hd] & _ & Hend).
  rewrite encodePayload_Ok in He. injection He as <- <-.
  vm_compute in Hd. injection Hd as <-.
  destruct (Hend ltac:(discriminate)) as (tr' & q & E).
  destruct tr' as [|e [|e' tr']]; discriminate E.
Qed.

Lemma encoded_falsy (p : Packet) (sb : option bool) :
  truthy sb = false -> encoded p sb = WStr (textOf p).
Proof.
  intros H. rewrite <- encoded_None. unfold encoded. now rewrite H.
Qed.

Lemma textOf_nonempty (p : Packet) : codable p None = true -> textOf p <> [].
Proof.
  unfold codable, validPacket, textOf, encoded.
  rewrite andb_true_iff. intros [Ht Hd].
  destruct p as [t [[s|b|b]|]]; cbn [data type truthy] in *;
    rewrite ?String_of_code_valid by assumption; discriminate.
Qed.

Lemma decode_textOf (p : Packet) (bt : BinaryType) :
  codable p None = true ->
  decodePacket (Some (WStr (textOf p))) bt = Ok (decoded p bt).
Proof.
  intros H. rewrite <- encoded_None. now apply decode_encoded.
Qed.

Lemma codable_valid (p : Packet) (sb : option bool) :
  codable p sb = true -> validPacket p = true.
Proof. unfold codable. now rewrite andb_true_iff. Qed.

Lemma segOf_good (p : Packet) (bt : BinaryType) :
  codable p None = true -> goodSeg bt (segOf p).
Proof.
  intros H. unfold segOf, goodSeg. repeat split.
  - intros Hin. pose proof (String_of_nat_digits (List.length (textOf p))) as D.
    rewrite forallb_forall in D. apply D in Hin.
    now apply digit_not_colon in Hin.
  - apply String_of_nat_nonempty.
  - rewrite Number_String_of_nat. apply to_natural_Dec0.
  - intros _. exists (decoded p bt). split; [now apply decode_textOf|].
    apply decoded_not_err. now apply codable_valid with (sb := None).
Qed.

Lemma segCalls_segOf (p : Packet) (bt : BinaryType) (l i : nat) :
  codable p None = true ->
  segCalls bt l i (segOf p)
  = [Call (decoded p bt)
       (i + List.length (fst (segOf p)) + List.length (textOf p)) l].
Proof.
  intros H. unfold segCalls. cbn [segOf fst snd].
  pose proof (textOf_nonempty p H) as Hne.
  pose proof (decode_textOf p bt H) as Hd.
  destruct (textOf p) as [|c r]; [congruence|]. now rewrite Hd.
Qed.

Lemma delivers_segs (ps : list Packet) (bt : BinaryType) (l i : nat) :
  forallb (fun p => codable p None) ps = true ->
  delivers (segsCalls bt l i (List.map segOf ps)) ps.
Proof.
  revert i. induction ps as [|p ps IH]; intros i H; [constructor|].
  cbn [forallb] in H. apply andb_true_iff in H as [Hp H].
  cbn [List.map segsCalls]. rewrite (segCalls_segOf p bt l i Hp).
  constructor; [|now apply IH].
  eexists _, _, _. split; [reflexivity|apply decoded_same].
Qed.

Lemma endsWith_cons (e : Event) (tr : list Event) (i t : nat) :
  endsWith tr i t -> endsWith (e :: tr) i t.
Proof. intros (tr' & q & ->). now exists (e :: tr'), q. Qed.

Lemma segs_end (ps : list Packet) (bt : BinaryType) (l i : nat) :
  forallb (fun p => codable p None) ps = true -> ps <> [] ->
  i + List.length (segsText (List.map segOf ps)) = l ->
  endsWith (segsCalls bt l i (List.map segOf ps)) (l - 1) l.
Proof.
  revert i. induction ps as [|p ps IH]; intros i H Hne Hl; [congruence|].
  cbn [forallb] in H. apply andb_true_iff in H as [Hp H].
  cbn [List.map segsCalls]. rewrite (segCalls_segOf p bt l i Hp).
  cbn [app].
  unfold segsText in Hl. cbn [List.map List.concat] in Hl.
  fold (segsText (List.map segOf ps)) in Hl. rewrite length_app in Hl.
  destruct ps as [|p' ps].
  - exists [], (decoded p bt). cbn [List.map segsCalls app].
    unfold segText, segsText in Hl. cbn [List.map List.concat] in Hl.
    rewrite length_app in Hl. cbn [List.length segOf fst snd] in *.
    f_equal. f_equal. lia.
  - apply endsWith_cons. apply IH; [assumption|discriminate|lia].
Qed.

Lemma forEach_run (ps : list Packet) (bt : BinaryType) (i total : nat) :
  forallb (fun p => codable p None) ps = true ->
  forEach (List.map WStr (List.map textOf ps)) bt i total
  = indexed ps bt i total.
Proof.
  revert i. induction ps as [|p ps IH]; intros i H; [reflexivity|].
  cbn [forallb] in H. apply andb_true_iff in H as [Hp H].
  cbn [List.map forEach indexed].
  now rewrite (decode_textOf p bt Hp), IH.
Qed.

Lemma delivers_indexed (ps : list Packet) (bt : BinaryType) (i total : nat) :
  delivers (indexed ps bt i total) ps.
Proof.
  revert i. induction ps as [|p ps IH]; intros i; constructor; [|apply IH].
  eexists _, _, _. split; [reflexivity|apply decoded_same].
Qed.

Lemma indexed_end (ps : list Packet) (bt : BinaryType) (i total : nat) :
  ps <> [] ->
  endsWith (indexed ps bt i total) (i + List.length ps - 1) total.
Proof.
  revert i. induction ps as [|p ps IH]; intros i Hne; [congruence|].
  cbn [indexed]. destruct ps as [|p' ps].
  - exists [], (decoded p bt). cbn [app List.length].
    f_equal. f_equal. lia.
  - apply endsWith_cons.
    replace (i + List.length (p :: p' :: ps) - 1)
      with (S i + List.length (p' :: ps) - 1) by (cbn [List.length]; lia).
    now apply IH.
Qed.

(** The text of a packet is ASCII when its string data is. *)
Lemma b64char_ascii (i : N) : (b64char i <? 128)%N = true.
Proof.
  unfold b64char.
  destruct (nth_in_or_default (N.to_nat i) b64alphabet pad) as [H | ->];
    [|reflexivity].
  assert (A : forallb (fun c => c <? 128)%N b64alphabet = true)
    by reflexivity.
  rewrite forallb_forall in A. now apply A.
Qed.

Lemma base64_encode_ascii (b : bytes) : isAscii (base64_encode b) = true.
Proof.
  unfold isAscii.
  induction b as [|x|x y|x y z r IH] using bytes_ind3;
    [reflexivity| | |rewrite base64_encode_3, forallb_app, IH];
    cbn [base64_encode forallb]; rewrite ?b64char_ascii; reflexivity.
Qed.

Lemma textOf_ascii (p : Packet) (cap : option bool) :
  payloadCodable cap p = true -> truthy cap = true ->
  isAscii (textOf p) = true.
Proof.
  unfold payloadCodable, codable, validPacket, textOf, encoded.
  intros H Hc. rewrite Hc in H. cbn [negb orb] in H.
  rewrite !andb_true_iff in H. destruct H as [[Ht Hd] Ha].
  destruct p as [t [[s|b|b]|]]; cbn [data type truthy] in *;
    rewrite String_of_code_valid by assumption;
    try discriminate; unfold isAscii in *.
  - cbn [app forallb]. rewrite Ha. type_cases Ht; reflexivity.
  - change (str "b") with [98%N]. cbn [app forallb].
    fold (isAscii (base64_encode b)). rewrite base64_encode_ascii.
    type_cases Ht; reflexivity.
  - type_cases Ht; reflexivity.
Qed.

Lemma payloadCodable_codable (ps : list Packet) (cap : option bool) :
  forallb (payloadCodable cap) ps = true ->
  forallb (fun p => codable p None) ps = true.
Proof.
  rewrite !forallb_forall. intros H p Hp. apply H in Hp.
  unfold payloadCodable in Hp. now apply andb_true_iff in Hp.
Qed.

Lemma segsText_nonempty (p : Packet) (ps : list Packet) :
  segsText (List.map segOf (p :: ps)) <> [].
Proof.
  unfold segsText, segText. cbn [List.map List.concat]. intros E.
  apply app_eq_nil in E as [E _]. apply app_eq_nil in E as [_ E].
  discriminate E.
Qed.

Lemma text_payload_segs (ps : list Packet) (cap : option bool) :
  truthy cap = false ->
  List.concat (List.map (fun p => setLengthHeader (encoded p cap)) ps)
  = segsText (List.map segOf ps).
Proof.
  intros H. unfold segsText. rewrite List.map_map. f_equal.
  apply map_ext. intros p. now rewrite encoded_falsy.
Qed.

(** C1, amended: for every list [ps] of packets of the seven types whose
    data is absent, a non-empty string or a [Buffer] (with binary support
    the strings must be ASCII), and every capability flag, encoding
    succeeds and decoding the result calls the callback once per packet,
    with packets equal in order to [ps].  With binary support the last
    call carries [|ps| - 1] and [|ps|]; without it, it carries the length
    of the payload minus one, and the length of the payload. *)
Theorem payload_roundtrip (ps : list Packet) (cap : option bool)
    (binaryType : BinaryType) (callback : Callback) :
  neverFalse callback -> forallb (payloadCodable cap) ps = true ->
  exists w ps' tr,
    encodePayload ps cap = Ok (w, ps')
    /\ (forall fuel, wireLength w < fuel ->
        decodePayload fuel w binaryType callback = Some tr)
    /\ delivers tr ps
    /\ (ps <> [] ->
        if truthy cap
        then endsWith tr (List.length ps - 1) (List.length ps)
        else endsWith tr (wireLength w - 1) (wireLength w)).
Proof.
  intros Hcb Hps. pose proof (payloadCodable_codable ps cap Hps) as Hc.
  rewrite encodePayload_Ok. destruct (truthy cap) eqn:Ecap.
  - eexists _, _, (indexed ps binaryType 0 (List.length ps)).
    split; [reflexivity|]. split; [|split].
    + intros fuel Hf. cbn [wireLength] in Hf. cbn [decodePayload].
      unfold decodePayloadAsBinary.
      rewrite <- (List.map_map textOf binSeg) in *.
      fold (binSegs (List.map textOf ps)) in *.
      rewrite split_run; [| |assumption].
      * cbn [app]. rewrite !length_map. now rewrite forEach_run.
      * rewrite forallb_forall in *. intros s Hs.
        apply in_map_iff in Hs as (p & <- & Hp).
        apply textOf_ascii with (cap := cap); auto.
    + apply delivers_indexed.
    + intros Hne. apply (indexed_end ps binaryType 0 (List.length ps) Hne).
  - destruct ps as [|p0 ps0].
    + exists (WStr (str "0:")), [], []. split; [reflexivity|].
      split; [reflexivity|]. split; [constructor|congruence].
    + remember (p0 :: ps0) as ps eqn:Eps.
      assert (Hne : ps <> []) by (subst; discriminate).
      eexists _, _,
        (segsCalls binaryType
           (List.length (segsText (List.map segOf ps))) 0
           (List.map segOf ps)).
      split; [subst ps; reflexivity|].
      rewrite (text_payload_segs ps cap Ecap).
      split; [|split].
      * intros fuel _. unfold decodePayload.
        rewrite str_eqb_false by (subst ps; apply segsText_nonempty).
        rewrite (segs_run _ binaryType callback _ 0 (List.map segOf ps) []);
          [|lia|assumption|now rewrite app_nil_r|].
        2:{ apply Forall_forall. intros seg Hs.
            apply in_map_iff in Hs as (p & <- & Hp).
            apply segOf_good. rewrite forallb_forall in Hc. now apply Hc. }
        cbn [Nat.add]. rewrite decodeLoop_S, Nat.leb_refl.
        cbn [afterLoop option_map]. now rewrite app_nil_r.
      * now apply delivers_segs.
      * intros _. cbn [wireLength]. now apply segs_end.
Qed.

Lemma payload_roundtrip_witness :
  let ps := [textPacket message "hello"; barePacket ping] in
  neverFalse proceed
  /\ forallb (payloadCodable (Some false)) ps = true
  /\ exists w ps' tr,
       encodePayload ps (Some false) = Ok (w, ps')
       /\ (forall fuel, wireLength w < fuel ->
           decodePayload fuel w nodebuffer proceed = Some tr)
       /\ delivers tr ps
       /\ (ps <> [] -> endsWith tr (wireLength w - 1) (wireLength w)).
Proof.
  cbv zeta. split; [intros p i l; reflexivity|]. split; [reflexivity|].
  apply (payload_roundtrip [textPacket message "hello"; barePacket ping]
           (Some false) nodebuffer proceed).
  - intros p i l. reflexivity.
  - reflexivity.
Defined.

(* ================================================================== *)
(** * Further properties of the codec *)
(* ================================================================== *)

(** ** The table of packet types *)

(** X1: [packets] and [packetslist] are inverse of each other on the seven
    types and the codes 0 to 6, and [packetslist] has no entry for any
    other code. *)
Theorem type_table_inverse :
  (forall t, validType t = true -> packetslist_idx (packets t) = t)
  /\ (forall i, (i < 7)%N -> packets (packetslist_idx (Some i)) = Some i)
  /\ (forall i, (7 <= i)%N -> packetslist_idx (Some i) = None).
Proof.
  split; [|split].
  - intros t H. type_cases H; reflexivity.
  - intros i H. rewrite <- (N2Nat.id i).
    assert (Hk : N.to_nat i < 7) by lia.
    generalize dependent (N.to_nat i). clear. intros k Hk.
    do 7 (destruct k as [|k]; [reflexivity|]). lia.
  - intros i H. cbn [packetslist_idx]. apply nth_error_None.
    cbn [List.length packetslist]. lia.
Qed.

Lemma type_table_inverse_witness :
  validType (Some message) = true
  /\ packetslist_idx (packets (Some message)) = Some message
  /\ packets (packetslist_idx (Some 4%N)) = Some 4%N
  /\ packetslist_idx (Some 7%N) = None.
Proof.
  destruct type_table_inverse as (H1 & H2 & H3).
  split; [reflexivity|]. split; [apply H1; reflexivity|].
  split; [apply H2; reflexivity|apply H3; discriminate].
Defined.

(** ** Single packets *)

Lemma low_digit_cases (c : N) :
  (48 <=? c)%N && (c <=? 54)%N = true ->
  (c = 48 \/ c = 49 \/ c = 50 \/ c = 51 \/ c = 52 \/ c = 53 \/ c = 54)%N.
Proof. rewrite andb_true_iff, !N.leb_le. lia. Qed.

Lemma packetslist_key_other (c : N) :
  (48 <=? c)%N && (c <=? 54)%N = false -> packetslist_key [c] = None.
Proof.
  intros E. unfold packetslist_key. destruct (isDigit c) eqn:D; [|reflexivity].
  digit_cases D; try discriminate E; reflexivity.
Qed.

(** X2: on a string that does not start with [b], [decodePacket] does not
    raise; it returns the error packet unless the first character is a
    digit from [0] to [6], and then a packet of the type with that code,
    whose data is the rest of the string, or absent when there is no
    rest.  So the result is the error packet or a packet of one of the
    seven types. *)
Theorem decodePacket_reads_text (s : jsstring) (binaryType : BinaryType) :
  charAt s 0 <> str "b" ->
  decodePacket (Some (WStr s)) binaryType = Ok (readText s)
  /\ (readText s = err \/ validPacket (readText s) = true).
Proof.
  intros H. destruct s as [|c rest]; [split; [reflexivity|now left]|].
  cbn [charAt nth_error] in H. unfold decodePacket, readText.
  cbn [charAt nth_error]. rewrite (str_eqb_false _ _ H).
  destruct ((48 <=? c)%N && (c <=? 54)%N) eqn:E.
  - apply low_digit_cases in E.
    repeat (destruct E as [E | E]; [subst c | ]); [ .. | subst c];
      (split; [destruct rest; reflexivity|right; reflexivity]).
  - rewrite (packetslist_key_other c E), orb_true_r. split; [reflexivity|].
    now left.
Qed.

Lemma decodePacket_reads_text_witness :
  charAt (str "2probe") 0 <> str "b"
  /\ decodePacket (Some (WStr (str "2probe"))) nodebuffer
     = Ok (textPacket ping "probe")
  /\ charAt (str "xyz") 0 <> str "b"
  /\ decodePacket (Some (WStr (str "xyz"))) nodebuffer = Ok err.
Proof.
  split; [discriminate|].
  split; [apply (decodePacket_reads_text (str "2probe")); discriminate|].
  split; [discriminate|].
  apply (decodePacket_reads_text (str "xyz")). discriminate.
Defined.

(** X3: the encoders do not raise, whatever the packets and the flag.
    [encodePacket] produces a [Buffer] exactly when binary support is on
    and the data is binary, a string otherwise; [encodePayload] produces
    a [Buffer] exactly when binary support is on, and leaves as many
    packets as it was given. *)
Theorem encoders_return (p : Packet) (ps : list Packet)
    (supportsBinary : option bool) :
  (exists w p',
     encodePacket p supportsBinary = Ok (w, p')
     /\ isBuffer w = truthy supportsBinary && hasBinary p)
  /\ (exists w ps',
        encodePayload ps supportsBinary = Ok (w, ps')
        /\ isBuffer w = truthy supportsBinary
        /\ List.length ps' = List.length ps).
Proof.
  split.
  - exists (encoded p supportsBinary), (after p supportsBinary).
    split; [apply encodePacket_Ok|].
    unfold encoded, hasBinary.
    destruct (data p) as [[s|b|b]|]; destruct (truthy supportsBinary);
      reflexivity.
  - rewrite encodePayload_Ok. eexists _, _. split; [reflexivity|].
    split; [|apply length_map].
    destruct (truthy supportsBinary); [reflexivity|]. now destruct ps.
Qed.

Lemma decodeBase64Packet_encoded (t : option PacketType) (b : bytes)
    (bt : BinaryType) :
  validType t = true ->
  decodeBase64Packet (typeChar t :: base64_encode b) bt
  = mkPacket t (Some (binaryData bt b)).
Proof.
  intros Ht. unfold decodeBase64Packet, substring.
  cbn [skipn charAt nth_error].
  rewrite typeChar_key, base64_roundtrip by assumption. now destruct bt.
Qed.

(** X4: for a packet of one of the seven types with a [Buffer],
    [encodeBase64Packet] writes [b] and a string from which
    [decodeBase64Packet] reads the type and the bytes back, in the
    representation asked for, and the packet is left as it was.  With an
    [ArrayBuffer] of [n] bytes what is read back is [n] zero bytes. *)
Theorem base64_packet_roundtrip (t : option PacketType) (b : bytes)
    (binaryType : BinaryType) :
  validType t = true ->
  (exists m,
     encodeBase64Packet (mkPacket t (Some (Buf b)))
     = Ok (str "b" ++ m, mkPacket t (Some (Buf b)))
     /\ decodeBase64Packet m binaryType
        = mkPacket t (Some (binaryData binaryType b)))
  /\ (exists m p',
        encodeBase64Packet (mkPacket t (Some (ArrayBuf b)))
        = Ok (str "b" ++ m, p')
        /\ decodeBase64Packet m binaryType
           = mkPacket t
               (Some (binaryData binaryType (repeat x00 (List.length b))))).
Proof.
  intros Ht. split.
  - exists (typeChar t :: base64_encode b). split.
    + unfold encodeBase64Packet. cbn [data type].
      rewrite String_of_code_valid by assumption. reflexivity.
    + now apply decodeBase64Packet_encoded.
  - exists (typeChar t :: base64_encode (repeat x00 (List.length b))).
    eexists. split.
    + unfold encodeBase64Packet. cbn [data type].
      rewrite String_of_code_valid by assumption. reflexivity.
    + now apply decodeBase64Packet_encoded.
Qed.

Lemma base64_packet_roundtrip_witness :
  validType (Some message) = true
  /\ exists m,
       encodeBase64Packet (mkPacket (Some message) (Some (Buf [x01; x02; xff])))
       = Ok (str "b" ++ m, mkPacket (Some message) (Some (Buf [x01; x02; xff])))
       /\ decodeBase64Packet m arraybuffer
          = mkPacket (Some message) (Some (ArrayBuf [x01; x02; xff])).
Proof.
  split; [reflexivity|].
  apply (proj1 (base64_packet_roundtrip (Some message) [x01; x02; xff]
                  arraybuffer eq_refl)).
Defined.

(** ** The text payload decoder on any string *)

Lemma substr_length (s : jsstring) (start : nat) (v : JSNumber) :
  List.length (substr s start v) <= List.length s - start.
Proof.
  unfold substr. rewrite length_firstn, length_skipn. apply Nat.le_min_r.
Qed.

Lemma decodePacket_string_Ok (s : jsstring) (bt : BinaryType) :
  exists p, decodePacket (Some (WStr s)) bt = Ok p.
Proof.
  unfold decodePacket. destruct (str_eqb _ _); [eauto|].
  destruct (_ || _); [eauto|]. destruct (_ <? _); eauto.
Qed.

(** The four ways a pass through the body of the loop can end. *)
Lemma loopBody_cases (data : jsstring) (bt : BinaryType) (cb : Callback)
    (i : nat) (len : jsstring) :
  i < List.length data ->
  loopBody data bt cb i len = Return [Call err 0 1]
  \/ (exists p j, i <= j /\ j < List.length data /\ isErr p = false
        /\ cb p j (List.length data) = ReturnedFalse
        /\ loopBody data bt cb i len = Return [Call p j (List.length data)])
  \/ (exists i' len', i <= i' /\ loopBody data bt cb i len = Next [] i' len')
  \/ (exists p j, i <= j /\ j < List.length data /\ isErr p = false
        /\ cb p j (List.length data) = ReturnedOther
        /\ loopBody data bt cb i len
           = Next [Call p j (List.length data)] j []).
Proof.
  intros Hi. unfold loopBody.
  destruct (negb _); [right; right; left; eauto|].
  destruct (_ || _); [now left|].
  destruct (str_ne_nat _ _); [now left|].
  pose proof (substr_length data (i + 1) (Number len)) as Hl.
  destruct (substr data (i + 1) (Number len)) as [|c msg].
  { right; right; left. exists (i + List.length (@nil N)), []. split; [lia|].
    reflexivity. }
  destruct (decodePacket_string_Ok (c :: msg) bt) as [p ->].
  destruct (isErr p) eqn:Ep; [now left|].
  destruct (cb p _ _) eqn:Ecb.
  - right; left. exists p, (i + List.length (c :: msg)).
    repeat split; try assumption; lia.
  - right; right; right. exists p, (i + List.length (c :: msg)).
    repeat split; try assumption; lia.
Qed.

Lemma Orderly_weaken (l lo lo' : nat) (tr : list Event) :
  Orderly l lo tr -> lo' <= lo -> Orderly l lo' tr.
Proof.
  intros H Hle. destruct H; constructor; try assumption. lia.
Qed.

Lemma decodeLoop_orderly (fuel : nat) (data : jsstring) (bt : BinaryType)
    (cb : Callback) (i : nat) (len : jsstring) (tr : list Event) :
  decodeLoop fuel data bt cb i len = Some tr ->
  Orderly (List.length data) i tr.
Proof.
  revert i len tr. induction fuel as [|fuel IH]; intros i len tr H;
    [discriminate|].
  rewrite decodeLoop_S in H.
  destruct (Nat.leb_spec (List.length data) i) as [Hi|Hi].
  - injection H as <-. unfold afterLoop.
    destruct (str_eqb len []); constructor.
  - destruct (loopBody_cases data bt cb i len Hi)
      as [E|[(p & j & H1 & H2 & H3 & _ & E)|[(i' & len' & H1 & E)
         |(p & j & H1 & H2 & H3 & _ & E)]]]; rewrite E in H.
    + injection H as <-. constructor.
    + injection H as <-. constructor; try assumption. constructor.
    + rewrite option_map_app_nil in H. apply IH in H.
      apply Orderly_weaken with (lo := S i'); [assumption|lia].
    + destruct (decodeLoop fuel data bt cb (S j) []) as [tr'|] eqn:E';
        [|discriminate].
      cbn in H. injection H as <-. constructor; try assumption.
      now apply IH with (len := []).
Qed.

(** X5: on every string and with every callback the text decoder
    returns, without raising, and its calls are orderly: every call but
    the report of an error carries a packet that is not the error packet,
    the length of the payload as total and an index below it; indices
    increase from call to call; an error is reported by one call with
    the error packet and [(0, 1)], after which no call is made. *)
Theorem text_decoder_orderly (fuel : nat) (data : jsstring)
    (binaryType : BinaryType) (callback : Callback) :
  exists tr,
    decodePayload fuel (WStr data) binaryType callback = Some tr
    /\ Orderly (List.length data) 0 tr.
Proof.
  destruct (decodePayload_text_returns fuel data binaryType callback)
    as [tr H].
  exists tr. split; [assumption|]. unfold decodePayload in H.
  destruct (str_eqb data []).
  - injection H as <-. constructor.
  - now apply decodeLoop_orderly in H.
Qed.

Lemma decodeLoop_heeded (fuel : nat) (data : jsstring) (bt : BinaryType)
    (cb : Callback) (i : nat) (len : jsstring) (tr : list Event) :
  decodeLoop fuel data bt cb i len = Some tr -> Heeded cb tr.
Proof.
  revert i len tr. induction fuel as [|fuel IH]; intros i len tr H;
    [discriminate|].
  rewrite decodeLoop_S in H.
  destruct (Nat.leb_spec (List.length data) i) as [Hi|Hi].
  - injection H as <-. unfold afterLoop.
    destruct (str_eqb len []); constructor.
  - destruct (loopBody_cases data bt cb i len Hi)
      as [E|[(p & j & _ & _ & _ & _ & E)|[(i' & len' & _ & E)
         |(p & j & _ & _ & _ & Hcb & E)]]]; rewrite E in H.
    + injection H as <-. constructor.
    + injection H as <-. constructor.
    + rewrite option_map_app_nil in H. now apply IH in H.
    + destruct (decodeLoop fuel data bt cb (S j) []) as [tr'|] eqn:E';
        [|discriminate].
      cbn in H. injection H as <-. constructor; [assumption|].
      now apply IH in E'.
Qed.

Lemma Heeded_stop (cb : Callback) (tr pre post : list Event) (p : Packet)
    (i t : nat) :
  Heeded cb tr -> tr = pre ++ Call p i t :: post ->
  cb p i t = ReturnedFalse -> post = [].
Proof.
  intros H. revert pre. induction H as [|e|q j u tr Hq H IH]; intros pre E Hcb.
  - now destruct pre.
  - destruct pre as [|x pre]; [now injection E as _ <-|].
    injection E as _ E. now destruct pre.
  - destruct pre as [|x pre].
    + injection E as -> -> -> _. congruence.
    + injection E as _ E. now apply IH with (pre := pre).
Qed.

(** X6: when the callback returns [false] the text decoder stops: the
    call for which it returned [false] is the last one. *)
Theorem callback_false_stops (fuel : nat) (data : jsstring)
    (binaryType : BinaryType) (callback : Callback)
    (tr pre post : list Event) (p : Packet) (i t : nat) :
  decodePayload fuel (WStr data) binaryType callback = Some tr ->
  tr = pre ++ Call p i t :: post ->
  callback p i t = ReturnedFalse ->
  post = [].
Proof.
  intros H E Hcb. apply (Heeded_stop callback tr pre post p i t);
    try assumption.
  unfold decodePayload in H. destruct (str_eqb data []).
  - injection H as <-. constructor.
  - now apply decodeLoop_heeded in H.
Qed.

Lemma callback_false_stops_witness :
  decodePayload 0 (WStr (str "1:21:3")) nodebuffer
    (fun _ i _ => if i =? 2 then ReturnedFalse else ReturnedOther)
  = Some ([] ++ [Call (barePacket ping) 2 6])
  /\ @nil Event = [].
Proof.
  split; [reflexivity|].
  apply (callback_false_stops 0 (str "1:21:3") nodebuffer
           (fun _ i _ => if i =? 2 then ReturnedFalse else ReturnedOther)
           [Call (barePacket ping) 2 6] [] [] (barePacket ping) 2 6);
    reflexivity.
Defined.

(** ** Well-formed text payloads *)

Lemma segsCalls_count (bt : BinaryType) (l i : nat)
    (segs : list (jsstring * jsstring)) :
  Forall (goodSeg bt) segs ->
  List.length (segsCalls bt l i segs)
  = List.length (filter (fun seg => negb (str_eqb (snd seg) [])) segs).
Proof.
  revert i. induction segs as [|[len body] segs IH]; intros i H;
    [reflexivity|].
  inversion H as [|? ? Hseg Hs]; subst. cbn [goodSeg] in Hseg.
  destruct Hseg as (_ & _ & _ & Hp).
  cbn [segsCalls filter snd]. rewrite length_app, (IH _ Hs).
  unfold segCalls. cbn [fst snd]. destruct body as [|c body]; [reflexivity|].
  destruct (Hp ltac:(discriminate)) as (p & -> & _).
  rewrite str_eqb_false by discriminate. reflexivity.
Qed.

(** X7: a text payload made of well-formed segments only (a prefix may
    have leading zeros, a body may be empty) is decoded without any error
    call: the calls are those of its segments, one for each segment whose
    body is not empty, and none for an empty body. *)
Theorem wellformed_payload_delivered (segs : list (jsstring * jsstring))
    (binaryType : BinaryType) (callback : Callback) (fuel : nat) :
  neverFalse callback -> segs <> [] -> Forall (goodSeg binaryType) segs ->
  decodePayload fuel (WStr (segsText segs)) binaryType callback
  = Some (segsCalls binaryType (List.length (segsText segs)) 0 segs)
  /\ List.length (segsCalls binaryType (List.length (segsText segs)) 0 segs)
     = List.length (filter (fun seg => negb (str_eqb (snd seg) [])) segs).
Proof.
  intros Hcb Hne Hg. split; [|now apply segsCalls_count].
  unfold decodePayload. rewrite str_eqb_false.
  2:{ destruct segs as [|[len body] segs]; [congruence|].
      unfold segsText, segText. cbn [List.map List.concat fst snd].
      intros E. apply app_eq_nil in E as [E _].
      apply app_eq_nil in E as [_ E]. discriminate E. }
  rewrite (segs_run _ binaryType callback _ 0 segs []);
    [|lia|assumption|now rewrite app_nil_r|assumption].
  cbn [Nat.add]. rewrite decodeLoop_S, Nat.leb_refl.
  cbn [afterLoop option_map]. now rewrite app_nil_r.
Qed.

Lemma pong_segment_good : goodSeg nodebuffer (str "01", str "3").
Proof.
  cbn [goodSeg]. split; [cbn; intuition discriminate|].
  split; [discriminate|]. split; [reflexivity|].
  intros _. exists (barePacket pong). split; reflexivity.
Qed.

Lemma empty_segment_good : goodSeg nodebuffer (str "0", []).
Proof.
  cbn [goodSeg]. split; [cbn; intuition discriminate|].
  split; [discriminate|]. split; [reflexivity|]. congruence.
Qed.

Lemma wellformed_payload_delivered_witness :
  decodePayload 0 (WStr (str "1:20:01:3")) nodebuffer proceed
  = Some [Call (barePacket ping) 2 9; Call (barePacket pong) 8 9].
Proof.
  apply (proj1 (wellformed_payload_delivered
                  [(str "1", str "2"); (str "0", []); (str "01", str "3")]
                  nodebuffer proceed 0
                  (fun p i l => eq_refl)
                  ltac:(discriminate)
                  (Forall_cons _ ping_segment_good
                     (Forall_cons _ empty_segment_good
                        (Forall_cons _ pong_segment_good (Forall_nil _)))))).
Defined.

(** ** The binary payload decoder on well-formed buffers *)

Lemma split_frame (fuel : nat) (seg : byte * bytes) (rest : bytes)
    (buffers : list Wire) :
  List.length (frame seg ++ rest) <= fuel ->
  splitBuffers (S fuel) (frame seg ++ rest) buffers
  = splitBuffers fuel rest (buffers ++ [bodyOf seg]).
Proof.
  destruct seg as [kind body]. unfold frame, bodyOf. cbn [fst snd].
  intros Hf. rewrite <- !app_comm_cons, <- app_assoc in *.
  cbn [List.length] in Hf. rewrite length_app, sizeDigits_length in Hf.
  rewrite splitBuffers_S.
  rewrite (scan_digits fuel _ 1 (String_of_nat (List.length body)) []
             (body ++ rest));
    [|reflexivity|apply String_of_nat_digits|lia].
  cbn [app]. cbv zeta. rewrite parseInt_String_of_nat. cbn [option_map].
  now rewrite sliceFrom_header, slice_body, sliceFrom_body.
Qed.

Lemma split_frames (fuel : nat) (segs : list (byte * bytes))
    (buffers : list Wire) :
  List.length (frames segs) < fuel ->
  splitBuffers fuel (frames segs) buffers
  = Some (buffers ++ List.map bodyOf segs).
Proof.
  revert fuel buffers.
  induction segs as [|seg segs IH]; intros fuel buffers Hf.
  - destruct fuel; [cbn in Hf; lia|]. cbn. now rewrite app_nil_r.
  - unfold frames in *. cbn [List.map List.concat] in *.
    destruct fuel as [|fuel]; [lia|].
    rewrite split_frame by lia. rewrite IH.
    + now rewrite <- app_assoc.
    + rewrite length_app in Hf.
      assert (0 < List.length (frame seg)) by (cbn; lia). lia.
Qed.

Lemma forEach_nodebuffer_length (buffers : list Wire) (i total : nat) :
  List.length (forEach buffers nodebuffer i total) = List.length buffers.
Proof.
  revert i. induction buffers as [|b buffers IH]; intros i; [reflexivity|].
  cbn [forEach]. destruct b as [s|b].
  - destruct (decodePacket_string_Ok s nodebuffer) as [p ->].
    cbn [List.length]. now rewrite IH.
  - cbn [decodePacket List.length]. now rewrite IH.
Qed.

(** X8: on a buffer made of segments, each one a kind byte, the digits
    of the length of its body, 255 and the body, the binary decoder
    returns; it hands each body to [decodePacket], as a string when the
    kind byte is 0 and as a [Buffer] otherwise, and calls the callback
    with the rank of the segment and the number of segments.  When a
    [Buffer] is asked for, no segment is lost: there are as many calls as
    segments. *)
Theorem binary_payload_decoded (segs : list (byte * bytes))
    (binaryType : BinaryType) (fuel : nat) :
  List.length (frames segs) < fuel ->
  decodePayloadAsBinary fuel (frames segs) binaryType
  = Some (forEach (List.map bodyOf segs) binaryType 0 (List.length segs))
  /\ List.length
       (forEach (List.map bodyOf segs) nodebuffer 0 (List.length segs))
     = List.length segs.
Proof.
  intros Hf. split.
  - unfold decodePayloadAsBinary. rewrite split_frames by assumption.
    cbn [app]. now rewrite length_map.
  - now rewrite forEach_nodebuffer_length, length_map.
Qed.

Lemma binary_payload_decoded_witness :
  decodePayloadAsBinary 20
    [x00; x03; xff; x34; x68; x69; x01; x02; xff; x03; xfe] nodebuffer
  = Some [Call (textPacket message "hi") 0 2;
          Call (mkPacket (Some pong) (Some (Buf [xfe]))) 1 2].
Proof.
  apply (proj1 (binary_payload_decoded
                  [(x00, [x34; x68; x69]); (x01, [x03; xfe])]
                  nodebuffer 20 ltac:(cbn; lia))).
Defined.

(** X9: a buffer that is not empty and has no byte 255 after its first
    byte is never decoded: the loop that reads the length does not end,
    whatever the number of iterations allowed. *)
Theorem binary_decoder_needs_terminator (kind : byte) (rest : bytes)
    (binaryType : BinaryType) (fuel : nat) :
  ~ In xff rest ->
  decodePayloadAsBinary fuel (kind :: rest) binaryType = None.
Proof.
  intros H. unfold decodePayloadAsBinary.
  now rewrite split_no_terminator.
Qed.

Lemma binary_decoder_needs_terminator_witness :
  ~ In xff [x05; x34]
  /\ decodePayloadAsBinary 1000 [x01; x05; x34] arraybuffer = None.
Proof.
  assert (H : ~ In xff [x05; x34]) by (cbn; intuition discriminate).
  split; [exact H|].
  exact (binary_decoder_needs_terminator x01 [x05; x34] arraybuffer 1000 H).
Defined.

(** ** The types of the packets of a payload *)

Lemma valid_not_err (q : Packet) :
  validType (type q) = true -> isErr q = false.
Proof.
  intros H. unfold isErr. destruct q as [t d]. cbn [type data] in *.
  type_cases H; reflexivity.
Qed.

Lemma textOf_cases (p : Packet) :
  validPacket p = true ->
  textOf p = [typeChar (type p)]
  \/ (exists s, s <> [] /\ data p = Some (Text s)
                /\ textOf p = typeChar (type p) :: s)
  \/ (exists b, textOf p = str "b" ++ [typeChar (type p)] ++ base64_encode b).
Proof.
  unfold validPacket, textOf, encoded. intros Ht.
  destruct p as [t [[s|b|b]|]]; cbn [data type truthy] in *;
    rewrite String_of_code_valid by assumption.
  - destruct s as [|c s]; [now left|].
    right; left. exists (c :: s). repeat split. discriminate.
  - right; right. now exists b.
  - right; right. now exists (repeat x00 (List.length b)).
  - now left.
Qed.

Lemma decode_textOf_valid (p : Packet) (bt : BinaryType) :
  validPacket p = true ->
  exists q, decodePacket (Some (WStr (textOf p))) bt = Ok q
            /\ type q = type p /\ isErr q = false.
Proof.
  intros Ht.
  assert (Hv : forall q, type q = type p -> isErr q = false).
  { intros q E. apply valid_not_err. now rewrite E. }
  destruct (textOf_cases p Ht) as [->|[(s & Hs & _ & ->)|(b & ->)]].
  - eexists. split; [now apply decode_bare|]. split; [|apply Hv]; reflexivity.
  - eexists. split; [now apply decode_text|]. split; [|apply Hv]; reflexivity.
  - eexists. split; [now apply decode_base64|].
    split; [|apply Hv]; reflexivity.
Qed.

Lemma textOf_nonempty_valid (p : Packet) :
  validPacket p = true -> textOf p <> [].
Proof.
  intros Ht.
  destruct (textOf_cases p Ht) as [->|[(s & _ & _ & ->)|(b & ->)]];
    discriminate.
Qed.

Lemma segOf_good_valid (p : Packet) (bt : BinaryType) :
  validPacket p = true -> goodSeg bt (segOf p).
Proof.
  intros H. unfold segOf, goodSeg. repeat split.
  - intros Hin. pose proof (String_of_nat_digits (List.length (textOf p))) as D.
    rewrite forallb_forall in D. apply D in Hin.
    now apply digit_not_colon in Hin.
  - apply String_of_nat_nonempty.
  - rewrite Number_String_of_nat. apply to_natural_Dec0.
  - intros _. destruct (decode_textOf_valid p bt H) as (q & Hq & _ & He).
    eauto.
Qed.

Lemma types_segs (ps : list Packet) (bt : BinaryType) (l i : nat) :
  forallb validPacket ps = true ->
  typesDelivered (segsCalls bt l i (List.map segOf ps)) ps.
Proof.
  revert i. induction ps as [|p ps IH]; intros i H; [constructor|].
  cbn [forallb] in H. apply andb_true_iff in H as [Hp H].
  cbn [List.map segsCalls]. unfold segCalls at 1. cbn [segOf fst snd].
  pose proof (textOf_nonempty_valid p Hp) as Hne.
  destruct (decode_textOf_valid p bt Hp) as (q & Hq & Ht & He).
  destruct (textOf p) as [|c r]; [congruence|]. rewrite Hq.
  constructor; [|now apply IH]. eexists _, _, _. eauto.
Qed.

Lemma types_forEach (ps : list Packet) (bt : BinaryType) (i total : nat) :
  forallb validPacket ps = true ->
  typesDelivered (forEach (List.map WStr (List.map textOf ps)) bt i total) ps.
Proof.
  revert i. induction ps as [|p ps IH]; intros i H; [constructor|].
  cbn [forallb] in H. apply andb_true_iff in H as [Hp H].
  cbn [List.map forEach].
  destruct (decode_textOf_valid p bt Hp) as (q & -> & Ht & He).
  constructor; [|now apply IH]. eexists _, _, _. eauto.
Qed.

Lemma typeChar_ascii (t : option PacketType) :
  validType t = true -> (typeChar t <? 128)%N = true.
Proof. intros H. type_cases H; reflexivity. Qed.

Lemma textOf_ascii_valid (p : Packet) :
  validPacket p = true -> asciiText p = true -> isAscii (textOf p) = true.
Proof.
  intros Ht Ha. pose proof (typeChar_ascii (type p) Ht) as Hc.
  destruct (textOf_cases p Ht) as [->|[(s & _ & Hd & ->)|(b & ->)]];
    unfold isAscii; cbn [forallb]; rewrite ?Hc.
  - reflexivity.
  - unfold asciiText in Ha. rewrite Hd in Ha. exact Ha.
  - change (str "b") with [98%N]. cbn [app forallb]. rewrite Hc.
    apply base64_encode_ascii.
Qed.

(** X10: for every list of packets of the seven types, whatever their
    data (with binary support, string data must be ASCII), decoding the
    encoded payload calls the callback once per packet, in order, with a
    packet of the type of the packet encoded, and never with the error
    packet. *)
Theorem payload_types_roundtrip (ps : list Packet) (cap : option bool)
    (binaryType : BinaryType) (callback : Callback) :
  neverFalse callback -> forallb validPacket ps = true ->
  (truthy cap = true -> forallb asciiText ps = true) ->
  exists w ps' tr,
    encodePayload ps cap = Ok (w, ps')
    /\ (forall fuel, wireLength w < fuel ->
        decodePayload fuel w binaryType callback = Some tr)
    /\ typesDelivered tr ps.
Proof.
  intros Hcb Hv Ha. rewrite encodePayload_Ok.
  destruct (truthy cap) eqn:Ecap.
  - eexists _, _, _. split; [reflexivity|]. split.
    + intros fuel Hf. cbn [wireLength] in Hf. cbn [decodePayload].
      unfold decodePayloadAsBinary.
      rewrite <- (List.map_map textOf binSeg) in *.
      fold (binSegs (List.map textOf ps)) in *.
      rewrite split_run; [| |assumption].
      * cbn [app]. reflexivity.
      * specialize (Ha eq_refl). rewrite forallb_forall in *. intros s Hs.
        apply in_map_iff in Hs as (p & <- & Hp).
        apply textOf_ascii_valid; auto.
    + now apply types_forEach.
  - destruct ps as [|p0 ps0].
    + exists (WStr (str "0:")), [], []. split; [reflexivity|].
      split; [reflexivity|constructor].
    + remember (p0 :: ps0) as ps eqn:Eps.
      eexists _, _,
        (segsCalls binaryType
           (List.length (segsText (List.map segOf ps))) 0
           (List.map segOf ps)).
      split; [subst ps; reflexivity|].
      rewrite (text_payload_segs ps cap Ecap). split.
      * intros fuel _. unfold decodePayload.
        rewrite str_eqb_false by (subst ps; apply segsText_nonempty).
        rewrite (segs_run _ binaryType callback _ 0 (List.map segOf ps) []);
          [|lia|assumption|now rewrite app_nil_r|].
        2:{ apply Forall_forall. intros seg Hs.
            apply in_map_iff in Hs as (p & <- & Hp).
            apply segOf_good_valid. rewrite forallb_forall in Hv.
            now apply Hv. }
        cbn [Nat.add]. rewrite decodeLoop_S, Nat.leb_refl.
        cbn [afterLoop option_map]. now rewrite app_nil_r.
      * now apply types_segs.
Qed.

Lemma payload_types_roundtrip_witness :
  let ps := [textPacket message "";
             mkPacket (Some pong) (Some (ArrayBuf [x01; x02]));
             barePacket noop] in
  exists w ps' tr,
    encodePayload ps (Some true) = Ok (w, ps')
    /\ (forall fuel, wireLength w < fuel ->
        decodePayload fuel w nodebuffer proceed = Some tr)
    /\ typesDelivered tr ps.
Proof.
  cbv zeta.
  apply (payload_types_roundtrip
           [textPacket message "";
            mkPacket (Some pong) (Some (ArrayBuf [x01; x02]));
            barePacket noop] (Some true) nodebuffer proceed).
  - intros p i l. reflexivity.
  - reflexivity.
  - intros _. reflexivity.
Defined.

(** ** Payloads of concatenated lists *)

(** X11: the payload of two lists of packets put end to end is the
    payload of the first followed by the payload of the second: always for
    the binary format, and for the text format when neither list is empty
    (the text payload of the empty list is ["0:"]). *)
Theorem payload_of_concatenation (ps1 ps2 : list Packet)
    (supportsBinary : option bool) :
  (exists b1 b2 q1 q2,
     encodePayloadAsBinary ps1 = Ok (b1, q1)
     /\ encodePayloadAsBinary ps2 = Ok (b2, q2)
     /\ encodePayloadAsBinary (ps1 ++ ps2) = Ok (b1 ++ b2, q1 ++ q2))
  /\ (truthy supportsBinary = false -> ps1 <> [] -> ps2 <> [] ->
      exists s1 s2 q1 q2,
        encodePayload ps1 supportsBinary = Ok (WStr s1, q1)
        /\ encodePayload ps2 supportsBinary = Ok (WStr s2, q2)
        /\ encodePayload (ps1 ++ ps2) supportsBinary
           = Ok (WStr (s1 ++ s2), q1 ++ q2)).
Proof.
  split.
  - rewrite !encodePayloadAsBinary_Ok. eexists _, _, _, _.
    split; [reflexivity|]. split; [reflexivity|].
    now rewrite !List.map_app, concat_app.
  - intros Hsb H1 H2.
    destruct ps1 as [|p1 ps1]; [congruence|].
    destruct ps2 as [|p2 ps2]; [congruence|].
    rewrite !encodePayload_Ok, Hsb.
    eexists _, _, _, _. split; [reflexivity|]. split; [reflexivity|].
    rewrite <- concat_app, <- !List.map_app. reflexivity.
Qed.

Lemma payload_of_concatenation_witness :
  exists s1 s2 q1 q2,
    encodePayload [textPacket message "hi"] None = Ok (WStr s1, q1)
    /\ encodePayload [barePacket ping; barePacket pong] None
       = Ok (WStr s2, q2)
    /\ encodePayload
         ([textPacket message "hi"] ++ [barePacket ping; barePacket pong])
         None
       = Ok (WStr (s1 ++ s2), q1 ++ q2).
Proof.
  apply (proj2 (payload_of_concatenation [textPacket message "hi"]
                  [barePacket ping; barePacket pong] None));
    [reflexivity|discriminate|discriminate].
Defined.
